(** * GisMapDynamic: map-state orchestration of the OpenLayers component

    A shallow embedding of [GisMapDynamic] and [makeClusterStyle]: the
    component's React state, the map's layer list and click listeners are an
    explicit record that every callback and effect transforms; promises are
    modelled by their settled outcome, handed to the continuation that runs
    after the [await]; objects that the code compares by identity (layers,
    filters, features, styles) carry a reference number drawn from an
    allocation counter.

    The rendering engine (OpenLayers, ol-ext, the browser) is external to the
    repository.  The few engine functions whose results the code consumes are
    the fields of [Engine]; host callbacks are the fields of [Props]. *)

From Stdlib Require Import QArith Qminmax Lqa.
From stdpp Require Import gmap strings list pretty.

Set Default Proof Using "Type".

(** ** JavaScript values the code tests for truthiness *)

(** A string is truthy unless it is empty. *)
Definition truthy_string (s : string) : bool := negb (String.eqb s "").

(** A rejection value [e]; the code only ever renders it with
    [String(e?.message || e)]. *)
Record JsError := { message : option string; as_string : string }.

Definition error_text (e : JsError) : string :=
  match message e with
  | Some m => if truthy_string m then m else as_string e
  | None => as_string e
  end.

(** The settled state of a promise. *)
Inductive Settled (A : Type) :=
| Resolved (a : A)
| Rejected (e : JsError).
Arguments Resolved {A} a.
Arguments Rejected {A} e.

(** How an [async] function of the component completes. *)
Inductive Completion :=
| Fulfilled
| Threw (e : JsError).

(** ** Geometry, features, filters, layers *)

Definition Coordinate : Type := Q * Q.
Definition MultiCoords : Type := list (list (list Coordinate)).

Inductive Geometry :=
| Point (c : Coordinate)
| MultiPolygon (cs : MultiCoords).

(** [new Feature(geometry)] with the one property the code sets, ["count"]. *)
Record Feature := {
  feature_ref : nat;
  geometry : option Geometry;
  count : option Z
}.

(** An ol-ext filter; the pipeline only builds [CropFilter]s. *)
Record Filter := {
  filter_ref : nat;
  crop_feature : Geometry;
  wrapX : bool;
  inner : bool;
  active : bool
}.

Inductive Source :=
| VectorSource (features : list Feature)
| Cluster (distance : Z) (features : list Feature)
| ParamSource (LAYERS : option string) (urls : option (list string)).

Inductive LayerStyle :=
| DefaultStyle
| POLYGON_BOUNDARY_STYLE
| ClusterStyleFunction (animationDuration : Z).

Record Layer := {
  layer_ref : nat;
  name : option string;          (* get("name") *)
  getVisible : bool;
  isVisible : bool;
  getSource : option Source;
  layer_style : LayerStyle;
  filters : list Filter          (* the filters ol-ext keeps on the layer *)
}.

Definition named (nm : string) (l : Layer) : bool :=
  match name l with Some s => String.eqb s nm | None => false end.

Definition carries (f : Filter) (l : Layer) : Prop :=
  filter_ref f ∈ filter_ref <$> filters l.

Definition source_features (l : Layer) : list Feature :=
  match getSource l with
  | Some (VectorSource fs) => fs
  | Some (Cluster _ fs) => fs
  | _ => []
  end.

(** ** The engine and the host *)

(** Opaque handles: a fetched image, and a row answered by [getSDTV] (an
    object, hence truthy). *)
Definition Blob : Type := nat.
Definition DataRecord : Type := nat.

Record Engine := {
  (** [transform(c, "EPSG:4326", "EPSG:3857")] *)
  toMercator : Coordinate → Coordinate;
  (** [transform(c, "EPSG:3857", "EPSG:4326")] *)
  toLonLat : Coordinate → Coordinate;
  (** a number inside a template string *)
  number_text : Q → string;
  (** [JSON.parse] followed by [GeoJSON.readFeatures]: either throws or yields
      one entry per feature read, its [getGeometry()?.getCoordinates()] at the
      type the code casts it to ([None] for a feature without geometry) *)
  readFeatures : string → JsError + list (option MultiCoords);
  (** [new MultiPolygon(undefined)] *)
  no_coordinates : JsError;
  (** ol-ext's [layer.removeFilter(f)] on the layer's filter list *)
  removeFilter : option Filter → list Filter → list Filter;
  (** [URL.createObjectURL] *)
  createObjectURL : Blob → string
}.

Record Notifier := { has_warn : bool; has_error : bool }.

Record LayerJsonBody := { table : string; column : string; id : string }.
Record ClusterSummaryItem := { lon : Q; lat : Q; item_count : Z }.
Record BoundaryRow := { st_asgeojson : option string }.

Record Props := {
  skipClipLayerNames : list string;
  notify : option Notifier;
  onPointSelected : bool;        (* whether the host passed the callback *)
  makeLegendUrl : string → string → string;
  buildLegendBlob : string → option Blob   (* [None]: the promise rejects *)
}.

Definition default_skipClipLayerNames : list string := ["Aerial"; "Google"].

(** ** What the host and the network can observe *)

Inductive Effect :=
| NotifyWarn (msg : string)
| NotifyError (msg : string)
| PointSelected (data : DataRecord)
| AnimateFeature (c : Coordinate)
| CallGetSDTV (wkt : string)
| CallGetClusterCount
| CallFetchBoundary (body : LayerJsonBody)
| CallBuildLegendBlob (url : string).

Definition notify_warn (P : Props) (msg : string) : list Effect :=
  match notify P with
  | Some n => if has_warn n then [NotifyWarn msg] else []
  | None => []
  end.

Definition notify_error (P : Props) (msg : string) : list Effect :=
  match notify P with
  | Some n => if has_error n then [NotifyError msg] else []
  | None => []
  end.

(** ** The component *)

(** The two ["singleclick"] listeners of the component.  [villageClickEvent]
    is one function for as long as [getSDTV], [onPointSelected] and [notify]
    keep their identity, which is assumed here. *)
Inductive Listener :=
| bound               (* the permanent feedback handler *)
| villageClickEvent.

Global Instance Listener_eq_dec : EqDecision Listener.
Proof. solve_decision. Defined.

(** The live map: the layers [getAllLayers()] enumerates, in order (layer
    groups are not modelled), and the listeners registered for
    ["singleclick"]. *)
Record OlMap := {
  layers : list Layer;
  singleclick : list Listener
}.

(** [mapRef.current], the [useState] cells, and what the model adds to
    them: the calls in flight, the trace of observable effects, and the
    allocation counter.  A held layer is the object as it was built; the code
    uses it only by identity, or to clear a layer it then removes. *)
Record Component := {
  mapRef : option OlMap;
  summary : list ClusterSummaryItem;
  clusterLayer : option Layer;
  navigationCropFilter : option Filter;
  clippedBoundary : option Layer;
  legendUrls : list string;
  pending : list string;          (* getSDTV calls not yet settled *)
  effects : list Effect;
  next_ref : nat                  (* allocation counter *)
}.

Definition emit (es : list Effect) (c : Component) : Component :=
  {| mapRef := mapRef c; summary := summary c; clusterLayer := clusterLayer c;
     navigationCropFilter := navigationCropFilter c;
     clippedBoundary := clippedBoundary c; legendUrls := legendUrls c;
     pending := pending c; effects := effects c ++ es;
     next_ref := next_ref c |}.

Definition set_map (m : OlMap) (c : Component) : Component :=
  {| mapRef := Some m; summary := summary c; clusterLayer := clusterLayer c;
     navigationCropFilter := navigationCropFilter c;
     clippedBoundary := clippedBoundary c; legendUrls := legendUrls c;
     pending := pending c; effects := effects c;
     next_ref := next_ref c |}.

Definition set_layers (ls : list Layer) (m : OlMap) : OlMap :=
  {| layers := ls; singleclick := singleclick m |}.

Definition set_listeners (ks : list Listener) (m : OlMap) : OlMap :=
  {| layers := layers m; singleclick := ks |}.

(** [Array.prototype.find]. *)
Fixpoint find_layer (p : Layer → bool) (ls : list Layer) : option Layer :=
  match ls with
  | [] => None
  | l :: ls' => if p l then Some l else find_layer p ls'
  end.

(** Removal of the first element that satisfies [p]. *)
Fixpoint remove_first (p : Layer → bool) (ls : list Layer) : list Layer :=
  match ls with
  | [] => []
  | l :: ls' => if p l then ls' else l :: remove_first p ls'
  end.

(** [map.removeLayer(layer)]: the collection drops that object. *)
Definition removeLayer (l : Layer) (ls : list Layer) : list Layer :=
  remove_first (λ x, Nat.eqb (layer_ref x) (layer_ref l)) ls.

(** [map.addLayer(layer)]. *)
Definition addLayer (l : Layer) (ls : list Layer) : list Layer := ls ++ [l].

(** A reference above those of the layers and filters the host passes in. *)
Definition fresh_above (ls : list Layer) : nat :=
  S (foldr Nat.max 0%nat
       ((layer_ref <$> ls) ++ (ls ≫= λ l, filter_ref <$> filters l))).

(** The component once mounted: the first effect builds the map from
    [groups], the feedback effect registers [bound]. *)
Definition mount (groups : list Layer) : Component :=
  {| mapRef := Some {| layers := groups; singleclick := [bound] |};
     summary := []; clusterLayer := None; navigationCropFilter := None;
     clippedBoundary := None; legendUrls := []; pending := []; effects := [];
     next_ref := fresh_above groups |}.

(** ** Cluster style ([makeClusterStyle] and its module-level [styleCache]) *)

Record Stroke := {
  stroke_color : string;
  stroke_width : Z;
  lineDash : list Q;             (* segment lengths, in units of pi *)
  lineCap : string
}.

Record CircleStyle := {
  radius : Q;
  circle_stroke : Stroke;
  circle_fill : string
}.

Record TextStyle := { text : string; text_fill : string }.

Record Style := {
  style_ref : nat;
  image : CircleStyle;
  text_style : TextStyle
}.

Record StyleModule := {
  styleCache : gmap string Style;
  style_next : nat
}.

Definition module_init : StyleModule :=
  {| styleCache := ∅; style_next := 0 |}.

(** The feature handed to a style function by the cluster source: its
    ["features"] property lists the members of the cluster. *)
Record ClusterFeature := { members : option (list Feature) }.

(** [feature.get("features")?.[0]?.get?.("count")] *)
Definition first_count (feature : ClusterFeature) : option Z :=
  match members feature with
  | Some (first :: _) => count first
  | _ => None
  end.

(** [size > 25 ? "192,0,0" : size > 8 ? "255,128,0" : "0,128,0"] *)
Definition cluster_color (size : Z) : string :=
  if (25 <? size)%Z then "192,0,0"
  else if (8 <? size)%Z then "255,128,0"
  else "0,128,0".

(** [Math.max(8, Math.min(size * 0.75, 20))]; on an integer count the
    product is exact, so a rational stands for the number. *)
Definition cluster_radius (size : Z) : Q :=
  Qmax 8 (Qmin (inject_Z size * 0.75) 20).

(** [new Array(7).fill((2 * Math.PI * radius) / 6)] with [lineDash[0] = 0];
    the lengths are kept as multiples of pi. *)
Definition cluster_lineDash (r : Q) : list Q :=
  <[0%nat := 0%Q]> (replicate 7 ((2 * r) / 6)%Q).

(** [new Style({...})] for a count, allocated at reference [ref]. *)
Definition new_cluster_style (ref : nat) (size : Z) : Style :=
  let color := cluster_color size in
  let radius := cluster_radius size in
  let lineDash := cluster_lineDash radius in
  {| style_ref := ref;
     image :=
       {| radius := radius;
          circle_stroke :=
            {| stroke_color := "rgba(" +:+ color +:+ ",0.5)";
               stroke_width := 15;
               lineDash := lineDash;
               lineCap := "butt" |};
          circle_fill := "rgba(" +:+ color +:+ ",1)" |};
     text_style := {| text := pretty size; text_fill := "#fff" |} |}.

(** [makeClusterStyle(feature)], threading the module's cache.  Counts are
    integers; [!size] holds for [undefined] and for 0. *)
Definition makeClusterStyle (feature : ClusterFeature) (M : StyleModule)
  : option Style * StyleModule :=
  match first_count feature with
  | None => (None, M)
  | Some size =>
      if (size =? 0)%Z then (None, M)
      else
        let key : string := pretty size in
        match styleCache M !! key with
        | Some cached => (Some cached, M)
        | None =>
            let style := new_cluster_style (style_next M) size in
            (Some style,
             {| styleCache := <[key := style]> (styleCache M);
                style_next := S (style_next M) |})
        end
  end.

(** The states of the module: the cache is private to [makeClusterStyle]. *)
Inductive module_reachable : StyleModule → Prop :=
| reach_init : module_reachable module_init
| reach_call feature M :
    module_reachable M → module_reachable (makeClusterStyle feature M).2.

(** The wording of the specification, for comparison with the code. *)
Definition clamp (x lo hi : Q) : Q :=
  if Qlt_le_dec x lo then lo
  else if Qlt_le_dec hi x then hi
  else x.

Inductive ColorBucket := green | orange | red.

Definition bucket_rgb (b : ColorBucket) : string :=
  match b with
  | green => "0,128,0"
  | orange => "255,128,0"
  | red => "192,0,0"
  end.

Definition spec_bucket (N : Z) : ColorBucket :=
  if decide (0 < N ≤ 8)%Z then green
  else if decide (8 < N ≤ 25)%Z then orange
  else red.

(** ** Cluster pipeline *)

(** [birth?.getVisible?.() || birth?.isVisible?.() || false] on the first
    layer named "Hospital Birth". *)
Definition isBirthCertificateLayerVisible (c : Component) : bool :=
  match mapRef c with
  | None => false
  | Some map =>
      match find_layer (named "Hospital Birth") (layers map) with
      | Some birth => getVisible birth || isVisible birth || false
      | None => false
      end
  end.

(** The loop that fills [features]: one point feature per aggregate. *)
Fixpoint cluster_features (E : Engine) (ref : nat)
    (items : list ClusterSummaryItem) : list Feature :=
  match items with
  | [] => []
  | it :: rest =>
      {| feature_ref := ref;
         geometry := Some (Point (toMercator E (lon it, lat it)));
         count := Some (item_count it) |}
      :: cluster_features E (S ref) rest
  end.

(** [new AnimatedCluster({...})] over a [Cluster] source of the features. *)
Definition new_cluster_layer (E : Engine) (ref : nat)
    (items : list ClusterSummaryItem) : Layer :=
  {| layer_ref := ref + length items;
     name := Some "cluster-layer";
     getVisible := true; isVisible := true;
     getSource := Some (Cluster 40 (cluster_features E ref items));
     layer_style := ClusterStyleFunction 700;
     filters := [] |}.

Definition overlay_state (ls : list Layer) (held : option Layer)
    (next : nat) (map : OlMap) (c : Component) : Component :=
  {| mapRef := Some (set_layers ls map); summary := summary c;
     clusterLayer := held;
     navigationCropFilter := navigationCropFilter c;
     clippedBoundary := clippedBoundary c;
     legendUrls := legendUrls c; pending := pending c;
     effects := effects c; next_ref := next |}.

(** The effect that depends on [summary]: [find] returns the first layer of
    the overlay's name and [removeLayer] drops that object. *)
Definition clusterLayerEffect (E : Engine) (c : Component) : Component :=
  match mapRef c with
  | None => c
  | Some map =>
      let ls := remove_first (named "cluster-layer") (layers map) in
      match summary c with
      | [] => overlay_state ls None (next_ref c) map c
      | _ :: _ =>
          let layer := new_cluster_layer E (next_ref c) (summary c) in
          let ls' :=
            if isBirthCertificateLayerVisible c then addLayer layer ls
            else ls in
          overlay_state ls' (Some layer)
            (S (next_ref c + length (summary c))) map c
      end
  end.

Definition setSummary (s : list ClusterSummaryItem) (c : Component)
  : Component :=
  {| mapRef := mapRef c; summary := s; clusterLayer := clusterLayer c;
     navigationCropFilter := navigationCropFilter c;
     clippedBoundary := clippedBoundary c; legendUrls := legendUrls c;
     pending := pending c; effects := effects c; next_ref := next_ref c |}.

(** [refreshClusterSummary] after its [await]: [resp] is [None] when the
    promise resolves with something that is not an array. *)
Definition refreshClusterSummary (P : Props)
    (outcome : Settled (option (list ClusterSummaryItem)))
    (c : Component) : Component :=
  let c := emit [CallGetClusterCount] c in
  match outcome with
  | Resolved resp =>
      setSummary (match resp with Some items => items | None => [] end) c
  | Rejected e => emit (notify_error P (error_text e)) c
  end.

(** A refresh as the host sees it: the callback, then the render it causes.
    Only a state update re-renders, and the new [summary] array makes React
    run the effect that depends on it. *)
Definition refresh (E : Engine) (P : Props)
    (outcome : Settled (option (list ClusterSummaryItem)))
    (c : Component) : Component :=
  match outcome with
  | Resolved _ => clusterLayerEffect E (refreshClusterSummary P outcome c)
  | Rejected _ => refreshClusterSummary P outcome c
  end.

(** ** Clip pipeline *)

(** [res?.[0]?.st_asgeojson || "{}"] *)
Definition geojson_text (res : option (list BoundaryRow)) : string :=
  match res with
  | Some (row :: _) =>
      match st_asgeojson row with
      | Some s => if truthy_string s then s else "{}"
      | None => "{}"
      end
  | _ => "{}"
  end.

Fixpoint boundary_features (ref : nat) (gs : list (option MultiCoords))
  : list Feature :=
  match gs with
  | [] => []
  | g :: rest =>
      {| feature_ref := ref; geometry := MultiPolygon <$> g; count := None |}
      :: boundary_features (S ref) rest
  end.

(** [let coords = []; features.forEach(ft => { coords = ... })] *)
Definition last_coordinates (gs : list (option MultiCoords))
  : option MultiCoords :=
  foldl (λ _ g, g) (Some []) gs.

(** [nm && skipClipLayerNames.includes(nm)] *)
Definition exempt (P : Props) (lyr : Layer) : bool :=
  match name lyr with
  | Some nm => truthy_string nm && bool_decide (nm ∈ skipClipLayerNames P)
  | None => false
  end.

Definition set_filters (fs : list Filter) (lyr : Layer) : Layer :=
  {| layer_ref := layer_ref lyr; name := name lyr;
     getVisible := getVisible lyr; isVisible := isVisible lyr;
     getSource := getSource lyr; layer_style := layer_style lyr;
     filters := fs |}.

(** [source.clear()] *)
Definition clear_source (lyr : Layer) : Layer :=
  {| layer_ref := layer_ref lyr; name := name lyr;
     getVisible := getVisible lyr; isVisible := isVisible lyr;
     getSource :=
       match getSource lyr with
       | Some (VectorSource _) => Some (VectorSource [])
       | Some (Cluster d _) => Some (Cluster d [])
       | other => other
       end;
     layer_style := layer_style lyr; filters := filters lyr |}.

(** The body of the [forEach] over [map.getAllLayers()].  ol-ext installs
    [addFilter] and [removeFilter] on every layer, so the optional calls
    always run. *)
Definition apply_mask (E : Engine) (P : Props) (old : option Filter)
    (crop : Filter) (lyr : Layer) : Layer :=
  if exempt P lyr then lyr
  else set_filters (removeFilter E old (filters lyr) ++ [crop]) lyr.

Definition clip_state (ls : list Layer) (boundary : option Layer)
    (mask : option Filter) (es : list Effect) (next : nat) (map : OlMap)
    (c : Component) : Component :=
  {| mapRef := Some (set_layers ls map); summary := summary c;
     clusterLayer := clusterLayer c; navigationCropFilter := mask;
     clippedBoundary := boundary; legendUrls := legendUrls c;
     pending := pending c; effects := effects c ++ es; next_ref := next |}.

(** Step 1: the layers left once the previous outline is retired. *)
Definition retired_layers (c : Component) (map : OlMap) : list Layer :=
  match clippedBoundary c with
  | Some old => removeLayer old (layers map)
  | None => layers map
  end.

(** [new VectorLayer({...})] over the features read, allocated from [ref]. *)
Definition new_boundary_layer (ref : nat) (gs : list (option MultiCoords))
  : Layer :=
  {| layer_ref := ref + length gs;
     name := Some "navigation-boundary";
     getVisible := true; isVisible := true;
     getSource := Some (VectorSource (boundary_features ref gs));
     layer_style := POLYGON_BOUNDARY_STYLE;
     filters := [] |}.

(** [new CropFilter({ feature, wrapX: true, inner: false })], activated. *)
Definition new_crop (ref : nat) (coords : MultiCoords) : Filter :=
  {| filter_ref := ref;
     crop_feature := MultiPolygon coords;
     wrapX := true; inner := false; active := true |}.

(** [clip(body)], given how [fetchBoundary(body)] settles.  The state setters
    take effect whether or not the function later throws. *)
Definition clip (E : Engine) (P : Props) (body : LayerJsonBody)
    (outcome : Settled (option (list BoundaryRow))) (c : Component)
  : Completion * Component :=
  match mapRef c with
  | None => (Fulfilled, c)
  | Some map =>
      let ls0 := retired_layers c map in
      let held := clear_source <$> clippedBoundary c in
      let old_mask := navigationCropFilter c in
      let call := [CallFetchBoundary body] in
      match outcome with
      | Rejected e =>
          (Threw e, clip_state ls0 held old_mask call (next_ref c) map c)
      | Resolved res =>
          match readFeatures E (geojson_text res) with
          | inl e =>
              (Threw e, clip_state ls0 held old_mask call (next_ref c) map c)
          | inr gs =>
              let layer := new_boundary_layer (next_ref c) gs in
              let ls1 := addLayer layer ls0 in
              let next := S (next_ref c + length gs) in
              match last_coordinates gs with
              | None =>
                  (Threw (no_coordinates E),
                   clip_state ls1 (Some layer) old_mask call next map c)
              | Some coords =>
                  let crop := new_crop next coords in
                  (Fulfilled,
                   clip_state (apply_mask E P old_mask crop <$> ls1)
                     (Some layer) (Some crop) call (S next) map c)
              end
          end
      end
  end.

(** The effect on [initialClip]: a rejected [clip] goes to the notifier. *)
Definition initialClipEffect (E : Engine) (P : Props)
    (initialClip : option LayerJsonBody)
    (outcome : Settled (option (list BoundaryRow))) (c : Component)
  : Component :=
  match initialClip with
  | None => c
  | Some body =>
      match clip E P body outcome c with
      | (Fulfilled, c') => c'
      | (Threw e, c') => emit (notify_error P (error_text e)) c'
      end
  end.

(** Every filter on a layer of the map is older than the next allocation. *)
Definition refs_allocated (c : Component) : Prop :=
  ∀ map lyr f, mapRef c = Some map → lyr ∈ layers map → f ∈ filters lyr →
    filter_ref f < next_ref c.

(** ** Legend builder *)

(** The [if (LAYERS && urls && urls[0])] test and the URL it formats. *)
Definition legend_request (P : Props) (layer : Layer) : option string :=
  match getSource layer with
  | Some (ParamSource (Some LAYERS) (Some (url0 :: _))) =>
      if truthy_string LAYERS && truthy_string url0
      then Some (makeLegendUrl P url0 LAYERS)
      else None
  | _ => None
  end.

(** What the promise pushed for a request settles to. *)
Definition legend_promise (E : Engine) (P : Props) (legendUrl : string)
  : string :=
  match buildLegendBlob P legendUrl with
  | Some blob => createObjectURL E blob
  | None => ""
  end.

(** The [forEach] that fills [promises], as the list of requested URLs. *)
Fixpoint legend_requests (P : Props) (visibles : list Layer) : list string :=
  match visibles with
  | [] => []
  | layer :: rest =>
      match legend_request P layer with
      | Some legendUrl => legendUrl :: legend_requests P rest
      | None => legend_requests P rest
      end
  end.

Definition buildLegendsForVisibleWmsLayers (E : Engine) (P : Props)
    (c : Component) : Component :=
  match mapRef c with
  | None => c
  | Some map =>
      let visibles := List.filter getVisible (layers map) in
      let requests := legend_requests P visibles in
      let urls :=
        List.filter truthy_string (legend_promise E P <$> requests) in
      {| mapRef := mapRef c; summary := summary c;
         clusterLayer := clusterLayer c;
         navigationCropFilter := navigationCropFilter c;
         clippedBoundary := clippedBoundary c; legendUrls := urls;
         pending := pending c;
         effects := effects c ++ (CallBuildLegendBlob <$> requests);
         next_ref := next_ref c |}
  end.

(** The legend entry a layer ends up with, if any. *)
Definition legend_entry (E : Engine) (P : Props) (layer : Layer)
  : option string :=
  if getVisible layer then
    match legend_request P layer with
    | Some legendUrl => createObjectURL E <$> buildLegendBlob P legendUrl
    | None => None
    end
  else None.

(** ** Identify interaction *)

(** [map.on("singleclick", k)]: a listener is registered once. *)
Definition on (k : Listener) (map : OlMap) : OlMap :=
  if bool_decide (k ∈ singleclick map) then map
  else set_listeners (singleclick map ++ [k]) map.

Fixpoint remove_listener (k : Listener) (ks : list Listener)
  : list Listener :=
  match ks with
  | [] => []
  | k' :: rest =>
      if bool_decide (k' = k) then rest else k' :: remove_listener k rest
  end.

(** [map.un("singleclick", k)] *)
Definition un (k : Listener) (map : OlMap) : OlMap :=
  set_listeners (remove_listener k (singleclick map)) map.

Definition addIdentifyPointMode (c : Component) : Component :=
  match mapRef c with
  | None => c
  | Some map => set_map (on villageClickEvent map) c
  end.

Definition add_pending (wkt : string) (c : Component) : Component :=
  {| mapRef := mapRef c; summary := summary c; clusterLayer := clusterLayer c;
     navigationCropFilter := navigationCropFilter c;
     clippedBoundary := clippedBoundary c; legendUrls := legendUrls c;
     pending := pending c ++ [wkt]; effects := effects c;
     next_ref := next_ref c |}.

Definition drop_pending (i : nat) (c : Component) : Component :=
  {| mapRef := mapRef c; summary := summary c; clusterLayer := clusterLayer c;
     navigationCropFilter := navigationCropFilter c;
     clippedBoundary := clippedBoundary c; legendUrls := legendUrls c;
     pending := delete i (pending c); effects := effects c;
     next_ref := next_ref c |}.

(** [`POINT (${longitude} ${latitude})`] for the click's coordinate. *)
Definition wktPoint (E : Engine) (evt : Coordinate) : string :=
  let '(longitude, latitude) := toLonLat E evt in
  "POINT (" +:+ number_text E longitude +:+ " "
  +:+ number_text E latitude +:+ ")".

(** [villageClickEvent] up to its [await]. *)
Definition villageClickEvent_call (E : Engine) (evt : Coordinate)
    (c : Component) : Component :=
  match mapRef c with
  | None => c
  | Some _ =>
      add_pending (wktPoint E evt)
        (emit [AnimateFeature evt; CallGetSDTV (wktPoint E evt)] c)
  end.

(** The [try] and [catch] branches of [villageClickEvent]. *)
Definition outcome_effects (P : Props)
    (outcome : Settled (option (list DataRecord))) : list Effect :=
  match outcome with
  | Resolved (Some (first :: _)) =>
      if onPointSelected P then [PointSelected first] else []
  | Resolved _ => notify_warn P "No data found for the selected point."
  | Rejected e => notify_error P (error_text e)
  end.

(** [villageClickEvent] from the [await] on, for the [i]-th call in flight:
    the branches, then the [finally]. *)
Definition villageClickEvent_settled (P : Props) (i : nat)
    (outcome : Settled (option (list DataRecord))) (c : Component)
  : Component :=
  match pending c !! i with
  | None => c
  | Some _ =>
      let c := emit (outcome_effects P outcome) (drop_pending i c) in
      match mapRef c with
      | Some map => set_map (un villageClickEvent map) c
      | None => c
      end
  end.

Definition run_listener (E : Engine) (evt : Coordinate) (c : Component)
    (k : Listener) : Component :=
  match k with
  | bound => emit [AnimateFeature evt] c
  | villageClickEvent => villageClickEvent_call E evt c
  end.

(** A ["singleclick"] on the map: every registered listener runs. *)
Definition singleclick_event (E : Engine) (c : Component)
    (evt : Coordinate) : Component :=
  match mapRef c with
  | None => c
  | Some map => foldl (run_listener E evt) c (singleclick map)
  end.

Definition listeners (c : Component) : list Listener :=
  match mapRef c with Some map => singleclick map | None => [] end.

(** Effects that belong to the identify path. *)
Definition identify_effect (e : Effect) : bool :=
  match e with
  | PointSelected _ | NotifyWarn _ | NotifyError _ | CallGetSDTV _ => true
  | _ => false
  end.

(** ** Scenarios used to exercise the statements below *)

Definition dq : Ascii.ascii :=
  Ascii.Ascii false true false false false true false false.

Definition quoted (s : string) : string := String dq (s +:+ String dq "").

Definition empty_collection_text : string :=
  "{" +:+ quoted "type" +:+ ":" +:+ quoted "FeatureCollection" +:+ ","
  +:+ quoted "features" +:+ ":[]}".

Definition square_text : string :=
  "{" +:+ quoted "type" +:+ ":" +:+ quoted "MultiPolygon" +:+ ","
  +:+ quoted "coordinates" +:+ ":[[[[0,0],[0,1],[1,1],[1,0],[0,0]]]]}".

Definition square : MultiCoords :=
  [[[(0, 0); (0, 1); (1, 1); (1, 0); (0, 0)]]]%Q.

Definition unsupported_type : JsError :=
  {| message := Some "Unsupported GeoJSON type: undefined";
     as_string := "Error: Unsupported GeoJSON type: undefined" |}.

(** A small engine: it reads an empty feature collection and one square, and
    throws on anything else, [{}] included. *)
Definition demo_engine : Engine :=
  {| toMercator := λ c, c;
     toLonLat := λ c, c;
     number_text := λ q, pretty (Qnum q);
     readFeatures := λ s,
       if String.eqb s empty_collection_text then inr []
       else if String.eqb s square_text then inr [Some square]
       else inl unsupported_type;
     no_coordinates :=
       {| message := Some "Cannot read properties of undefined";
          as_string := "TypeError: Cannot read properties of undefined" |};
     removeFilter := λ old fs,
       match old with
       | Some f =>
           List.filter (λ g, negb (Nat.eqb (filter_ref g) (filter_ref f))) fs
       | None => []
       end;
     createObjectURL := λ b, "blob:" +:+ pretty b |}.

Definition demo_props : Props :=
  {| skipClipLayerNames := default_skipClipLayerNames;
     notify := Some {| has_warn := true; has_error := true |};
     onPointSelected := true;
     makeLegendUrl := λ src layer,
       src +:+ "?REQUEST=GetLegendGraphic&layer=" +:+ layer
       +:+ "&format=image/png";
     buildLegendBlob := λ url,
       if String.prefix "https://ok" url then Some (String.length url)
       else None |}.

Definition tile (ref : nat) (nm : option string) (vis : bool)
    (src : option Source) : Layer :=
  {| layer_ref := ref; name := nm; getVisible := vis; isVisible := vis;
     getSource := src; layer_style := DefaultStyle; filters := [] |}.

Definition demo_groups : list Layer :=
  [ tile 0 (Some "Aerial") true None;
    tile 1 (Some "Hospital Birth") true
      (Some (ParamSource (Some "birth") (Some ["https://ok/wms"])));
    tile 2 None true
      (Some (ParamSource (Some "roads") (Some ["https://down/wms"])));
    tile 3 (Some "Google") false
      (Some (ParamSource (Some "sat") (Some ["https://ok/sat"])));
    tile 4 (Some "Parcels") true
      (Some (ParamSource (Some "parcels") (Some ["https://ok/parcels"]))) ].

Definition demo_body : LayerJsonBody :=
  {| table := "village"; column := "gid"; id := "7" |}.

Definition cluster_of (n : Z) : ClusterFeature :=
  {| members :=
       Some [ {| feature_ref := 0; geometry := None; count := Some n |} ] |}.

Definition aggregates_two : list ClusterSummaryItem :=
  [ {| lon := 10; lat := 20; item_count := 30 |};
    {| lon := 11; lat := 21; item_count := 5 |} ].

Definition aggregates_one : list ClusterSummaryItem :=
  [ {| lon := 12; lat := 22; item_count := 9 |} ].

(** ** Predicates of the statements below *)

(** Every cached style was built by [makeClusterStyle] for the count that
    its key prints. *)
Definition cache_sound (M : StyleModule) : Prop :=
  ∀ key style, styleCache M !! key = Some style →
    ∃ n : Z, n ≠ 0%Z ∧ key = pretty n
             ∧ style = new_cluster_style (style_ref style) n.

(** The radius and fill of the style built for a count on the empty cache. *)
Definition style_summary (n : Z) : option (Q * string) :=
  (λ s, (radius (image s), circle_fill (image s)))
    <$> (makeClusterStyle (cluster_of n) module_init).1.

(** The layers of the overlay's name that the map shows. *)
Definition cluster_layers (ls : list Layer) : list Layer :=
  List.filter (named "cluster-layer") ls.

(** The overlay's name is reserved: the map shows at most one such layer. *)
Definition overlay_unique (c : Component) : Prop :=
  ∀ map, mapRef c = Some map → length (cluster_layers (layers map)) ≤ 1.

(** The host or the layer switcher calls [layer.setVisible(v)] on the layers
    of a given name. *)
Definition setVisible (nm : string) (v : bool) (c : Component) : Component :=
  match mapRef c with
  | None => c
  | Some map =>
      set_map
        (set_layers
           ((λ l, if named nm l
                  then {| layer_ref := layer_ref l; name := name l;
                          getVisible := v; isVisible := v;
                          getSource := getSource l;
                          layer_style := layer_style l;
                          filters := filters l |}
                  else l) <$> layers map)
           map) c
  end.

(** What the specification asks of a call whose fetch brings no geometry:
    steps 3 to 6 leave the map's layers as step 1 left them and record no new
    mask. *)
Definition skips_steps_3_to_6 (E : Engine) (P : Props) (body : LayerJsonBody)
    (res : option (list BoundaryRow)) (c : Component) : Prop :=
  ∀ map, mapRef c = Some map →
    (layers <$> mapRef (clip E P body (Resolved res) c).2)
    = Some (retired_layers c map)
    ∧ navigationCropFilter (clip E P body (Resolved res) c).2
      = navigationCropFilter c.

Definition props_skipping (names : list string) : Props :=
  {| skipClipLayerNames := names;
     notify := notify demo_props;
     onPointSelected := onPointSelected demo_props;
     makeLegendUrl := makeLegendUrl demo_props;
     buildLegendBlob := buildLegendBlob demo_props |}.

(** The fetch resolved without a payload: no array, no first row, or a first
    row whose [st_asgeojson] is missing or empty. *)
Definition no_payload (res : option (list BoundaryRow)) : Prop :=
  match res with
  | Some (row :: _) =>
      st_asgeojson row = None ∨ st_asgeojson row = Some ""
  | _ => True
  end.

(** The name is a non-empty string of the exemption list. *)
Definition listed (P : Props) (lyr : Layer) : Prop :=
  ∃ nm, name lyr = Some nm ∧ nm ≠ "" ∧ nm ∈ skipClipLayerNames P.

(** ** The component as a transition system *)

(** What can happen to a mounted component: a refresh settles, a clip
    settles, the legends are rebuilt, the host arms the identify mode, the
    user clicks, a point query settles. *)
Inductive Action :=
| Refresh (outcome : Settled (option (list ClusterSummaryItem)))
| Clip (body : LayerJsonBody) (outcome : Settled (option (list BoundaryRow)))
| RebuildLegends
| Arm
| Click (evt : Coordinate)
| Settle (i : nat) (outcome : Settled (option (list DataRecord))).

Definition step (E : Engine) (P : Props) (c : Component) (a : Action)
  : Component :=
  match a with
  | Refresh outcome => refresh E P outcome c
  | Clip body outcome => initialClipEffect E P (Some body) outcome c
  | RebuildLegends => buildLegendsForVisibleWmsLayers E P c
  | Arm => addIdentifyPointMode c
  | Click evt => singleclick_event E c evt
  | Settle i outcome => villageClickEvent_settled P i outcome c
  end.

Inductive reachable (E : Engine) (P : Props) (groups : list Layer)
  : Component → Prop :=
| reachable_mount : reachable E P groups (mount groups)
| reachable_step c a :
    reachable E P groups c → reachable E P groups (step E P c a).

(** What the statements below assume of a state. *)
Definition invariant (c : Component) : Prop :=
  overlay_unique c ∧ refs_allocated c ∧ NoDup (listeners c).

(** ** The other effects and the rendered legend *)

(** The effect on [groups]: both calls start when the effect runs, so the
    legend builder reads the layers as they are then; the refresh settles into
    cells the legend builder does not touch.  The trace lists the calls in the
    order the model runs the steps. *)
Definition groupsEffect (E : Engine) (P : Props)
    (outcome : Settled (option (list ClusterSummaryItem)))
    (c : Component) : Component :=
  match mapRef c with
  | None => c
  | Some _ =>
      let legends := buildLegendsForVisibleWmsLayers E P c in
      if isBirthCertificateLayerVisible c then refresh E P outcome legends
      else legends
  end.

(** The point queries in flight settle one after the other, oldest first. *)
Definition settle_in_order (P : Props)
    (outcomes : list (Settled (option (list DataRecord))))
    (c : Component) : Component :=
  foldl (λ c outcome, villageClickEvent_settled P 0 outcome c) c outcomes.

(** The [<li>] rendered for a legend: [key], and the image's [src] and
    [alt]. *)
Record LegendItem := {
  item_key : string;
  item_src : string;
  item_alt : string
}.

(** [legendUrls.map((u, i) => ...)] *)
Definition legend_items (urls : list string) : list LegendItem :=
  imap (λ i u, {| item_key := "legend-" +:+ pretty i;
                  item_src := u;
                  item_alt := "legend-" +:+ pretty i |}) urls.

(** [legendUrls.length > 0 && (<ul> ... </ul>)] *)
Definition legend_panel (c : Component) : option (list LegendItem) :=
  if (0 <? length (legendUrls c))%nat then Some (legend_items (legendUrls c))
  else None.

(** Every layer of the map is older than the next allocation. *)
Definition layer_refs_allocated (c : Component) : Prop :=
  ∀ map lyr, mapRef c = Some map → lyr ∈ layers map →
    layer_ref lyr < next_ref c.

(** ol-ext's [removeFilter(f)] takes [f] off the layer and nothing else. *)
Definition removes_given (E : Engine) : Prop :=
  ∀ f fs g,
    g ∈ removeFilter E (Some f) fs
    ↔ g ∈ fs ∧ filter_ref g ≠ filter_ref f.


(** The cache holds one style per key, numbered in the order of creation. *)
Definition cache_allocated (M : StyleModule) : Prop :=
  size (styleCache M) = style_next M
  ∧ (∀ key style, styleCache M !! key = Some style →
       style_ref style < style_next M)
  ∧ (∀ key1 key2 style1 style2,
       styleCache M !! key1 = Some style1 →
       styleCache M !! key2 = Some style2 →
       style_ref style1 = style_ref style2 → key1 = key2).


(** Two layers of the gate's name, the first one hidden. *)
Definition shadowed_groups : list Layer :=
  [ tile 0 (Some "Hospital Birth") false
      (Some (ParamSource (Some "birth") (Some ["https://ok/wms"])));
    tile 1 (Some "Hospital Birth") true
      (Some (ParamSource (Some "birth2") (Some ["https://ok/wms2"]))) ].

(** ** The map's life cycle *)

(** The controls a map can hold: the three the effect creates, the progress
    bar over the layers it watches, and the engine's defaults. *)
Inductive Control :=
| Scale
| ScaleLine
| Compass
| ProgressBar (watched : list nat)
| DefaultControl (n : nat).

Global Instance Control_eq_dec : EqDecision Control.
Proof. solve_decision. Defined.

(** [defaultControls().getArray()] and [defaultInteractions()]. *)
Record OlDefaults := {
  defaultControls : list Control;
  defaultInteractions : list string
}.

(** What the first effect reads: its dependencies and the mount point. *)
Record MapInputs := {
  centerLonLat : Coordinate;
  initialZoom : Q;
  freezeMap : bool;
  groups : list Layer;
  onMapReady : bool;             (* whether the host passed the callback *)
  mapDiv : bool                  (* [mapDivRef.current] is set *)
}.

(** What a [Map] holds besides its layers and click listeners. *)
Record MapSession := {
  target : bool;
  view_center : Coordinate;
  view_zoom : Q;
  controls : list Control;
  interactions : list string;
  pointermove : bool;            (* [onPointerMove] is registered *)
  disposed : bool
}.

(** The component with its live map, the pointer position it displays, the
    calls made to [onMapReady], and the maps it has torn down. *)
Record Lifecycle := {
  component : Component;
  session : option MapSession;
  pointerLonLat : Coordinate;
  ready_calls : nat;
  retired : list MapSession
}.

Definition with_component (f : Component → Component) (L : Lifecycle)
  : Lifecycle :=
  {| component := f (component L); session := session L;
     pointerLonLat := pointerLonLat L; ready_calls := ready_calls L;
     retired := retired L |}.

(** [mapRef.current = null] *)
Definition clear_map (c : Component) : Component :=
  {| mapRef := None; summary := summary c; clusterLayer := clusterLayer c;
     navigationCropFilter := navigationCropFilter c;
     clippedBoundary := clippedBoundary c; legendUrls := legendUrls c;
     pending := pending c; effects := effects c; next_ref := next_ref c |}.

(** [map.removeControl(c)] *)
Fixpoint removeControl (c : Control) (cs : list Control) : list Control :=
  match cs with
  | [] => []
  | c' :: rest =>
      if bool_decide (c' = c) then rest else c' :: removeControl c rest
  end.

Definition custom_controls : list Control := [Scale; ScaleLine; Compass].

(** The body of the first effect. *)
Definition mapEffect_setup (D : OlDefaults) (E : Engine) (inp : MapInputs)
    (L : Lifecycle) : Lifecycle :=
  if negb (mapDiv inp) then L
  else
    let map :=
      {| target := true;
         view_center := toMercator E (centerLonLat inp);
         view_zoom := initialZoom inp;
         controls :=
           (if freezeMap inp then []
            else defaultControls D ++ custom_controls)
           ++ [ProgressBar (layer_ref <$> groups inp)];
         interactions :=
           if freezeMap inp then [] else defaultInteractions D;
         pointermove := true;
         disposed := false |} in
    {| component :=
         set_map {| layers := groups inp; singleclick := [] |} (component L);
       session := Some map;
       pointerLonLat := pointerLonLat L;
       ready_calls :=
         if onMapReady inp then S (ready_calls L) else ready_calls L;
       retired := retired L |}.

(** The function the first effect returns; there is one only when the body
    got past its first test. *)
Definition mapEffect_cleanup (L : Lifecycle) : Lifecycle :=
  match session L with
  | None => L
  | Some map =>
      {| component := clear_map (component L);
         session := None;
         pointerLonLat := pointerLonLat L;
         ready_calls := ready_calls L;
         retired :=
           retired L
           ++ [ {| target := false;
                   view_center := view_center map;
                   view_zoom := view_zoom map;
                   controls :=
                     foldl (λ cs c, removeControl c cs) (controls map)
                       custom_controls;
                   interactions := interactions map;
                   pointermove := false;
                   disposed := true |} ] |}
  end.

(** [onPointerMove], called by the map while it is registered. *)
Definition pointermove_event (E : Engine) (evt : Coordinate)
    (L : Lifecycle) : Lifecycle :=
  match session L with
  | Some map =>
      if pointermove map then
        {| component := component L; session := session L;
           pointerLonLat := toLonLat E evt;
           ready_calls := ready_calls L; retired := retired L |}
      else L
  | None => L
  end.

(** The effect that registers the feedback handler.  Its one dependency,
    [handlePulseAnimation], is a [useCallback] over [createPulseFeature],
    itself a [useCallback] over nothing: it never changes, so the effect runs
    once, after the first render. *)
Definition feedbackEffect (c : Component) : Component :=
  match mapRef c with
  | None => c
  | Some map => set_map (on bound map) c
  end.

(** Which dependencies a render finds changed. *)
Record Changed := {
  groups_changed : bool;
  centerLonLat_changed : bool;
  initialZoom_changed : bool;
  freezeMap_changed : bool;
  onMapReady_changed : bool;
  initialClip_changed : bool
}.

(** [[groups, centerLonLat, initialZoom, freezeMap, onMapReady]] *)
Definition map_deps_changed (ch : Changed) : bool :=
  groups_changed ch || centerLonLat_changed ch || initialZoom_changed ch
  || freezeMap_changed ch || onMapReady_changed ch.

(** A render after the first: the effects whose dependencies changed run
    again, cleanups first, in the order of the source.  The effect on
    [summary] runs with the refresh that sets it. *)
Definition rerender (D : OlDefaults) (E : Engine) (P : Props)
    (ch : Changed) (inp : MapInputs) (initialClip : option LayerJsonBody)
    (cluster_outcome : Settled (option (list ClusterSummaryItem)))
    (clip_outcome : Settled (option (list BoundaryRow)))
    (L : Lifecycle) : Lifecycle :=
  let L :=
    if map_deps_changed ch
    then mapEffect_setup D E inp (mapEffect_cleanup L) else L in
  let L :=
    if groups_changed ch
    then with_component (groupsEffect E P cluster_outcome) L else L in
  if initialClip_changed ch
  then with_component (initialClipEffect E P initialClip clip_outcome) L
  else L.

(** Before the first effect has run. *)
Definition unmounted (next : nat) : Lifecycle :=
  {| component :=
       {| mapRef := None; summary := []; clusterLayer := None;
          navigationCropFilter := None; clippedBoundary := None;
          legendUrls := []; pending := []; effects := [];
          next_ref := next |};
     session := None; pointerLonLat := (0, 0)%Q; ready_calls := 0;
     retired := [] |}.

(** The first two effects of the first render. *)
Definition first_paint (D : OlDefaults) (E : Engine) (inp : MapInputs)
    (next : nat) : Lifecycle :=
  with_component feedbackEffect (mapEffect_setup D E inp (unmounted next)).

(** What happens to the life cycle afterwards. *)
Inductive Happening :=
| Render (ch : Changed) (inp : MapInputs)
    (initialClip : option LayerJsonBody)
    (cluster_outcome : Settled (option (list ClusterSummaryItem)))
    (clip_outcome : Settled (option (list BoundaryRow)))
| PointerMove (evt : Coordinate)
| Act (a : Action)
| Unmount.

Definition happen (D : OlDefaults) (E : Engine) (P : Props)
    (L : Lifecycle) (h : Happening) : Lifecycle :=
  match h with
  | Render ch inp initialClip cluster_outcome clip_outcome =>
      rerender D E P ch inp initialClip cluster_outcome clip_outcome L
  | PointerMove evt => pointermove_event E evt L
  | Act a => with_component (λ c, step E P c a) L
  | Unmount => mapEffect_cleanup L
  end.

(** The inputs of a happening, if it has any. *)
Definition inputs_of (h : Happening) : option MapInputs :=
  match h with Render _ inp _ _ _ => Some inp | _ => None end.

(** The maps built so far: those torn down, and the live one. *)
Definition maps_built (L : Lifecycle) : nat :=
  length (retired L) + match session L with Some _ => 1 | None => 0 end.

(** What the life cycle keeps true. *)
Definition lifecycle_ok (L : Lifecycle) : Prop :=
  (session L = None ↔ mapRef (component L) = None)
  ∧ (∀ map, session L = Some map →
       target map = true ∧ pointermove map = true ∧ disposed map = false)
  ∧ (∀ map, map ∈ retired L →
       target map = false ∧ pointermove map = false ∧ disposed map = true)
  ∧ ready_calls L ≤ maps_built L.

Definition demo_defaults : OlDefaults :=
  {| defaultControls := [DefaultControl 0; DefaultControl 1; DefaultControl 2];
     defaultInteractions := ["DragPan"; "MouseWheelZoom"] |}.

Definition demo_inputs : MapInputs :=
  {| centerLonLat := (77, 28)%Q; initialZoom := 13; freezeMap := false;
     groups := demo_groups; onMapReady := true; mapDiv := true |}.

Definition center_only : Changed :=
  {| groups_changed := false; centerLonLat_changed := true;
     initialZoom_changed := false; freezeMap_changed := false;
     onMapReady_changed := false; initialClip_changed := false |}.

(** The life cycles that a first paint and any happenings lead to; with
    [always_ready], the host passes [onMapReady] in every render. *)
Inductive lifecycle_reachable (D : OlDefaults) (E : Engine) (P : Props)
    (always_ready : bool) : Lifecycle → Prop :=
| lifecycle_start inp next :
    (always_ready = true → onMapReady inp = true) →
    lifecycle_reachable D E P always_ready (first_paint D E inp next)
| lifecycle_step L h :
    lifecycle_reachable D E P always_ready L →
    (∀ inp, inputs_of h = Some inp → always_ready = true →
            onMapReady inp = true) →
    lifecycle_reachable D E P always_ready (happen D E P L h).

(** * Properties *)

(** ** Cluster style *)

Lemma cache_sound_init : cache_sound module_init.
Proof. intros key style H. cbn in H. by rewrite lookup_empty in H. Qed.

Lemma makeClusterStyle_sound feature M :
  cache_sound M → cache_sound (makeClusterStyle feature M).2.
Proof.
  intros HM. unfold makeClusterStyle.
  destruct (first_count feature) as [size|]; [|done].
  destruct (Z.eqb_spec size 0) as [->|Hne]; [done|].
  destruct (styleCache M !! pretty size) eqn:Hhit; [done|].
  intros key style. cbn. rewrite lookup_insert.
  case_decide as Hk.
  - intros [= <-]. exists size. by subst.
  - apply HM.
Qed.

Lemma module_reachable_sound M : module_reachable M → cache_sound M.
Proof.
  induction 1 as [|feature M _ IH].
  - apply cache_sound_init.
  - by apply makeClusterStyle_sound.
Qed.

(** What a call returns on a count that is not zero. *)
Lemma makeClusterStyle_returns feature M size :
  first_count feature = Some size → size ≠ 0%Z →
  makeClusterStyle feature M =
    match styleCache M !! pretty size with
    | Some cached => (Some cached, M)
    | None =>
        (Some (new_cluster_style (style_next M) size),
         {| styleCache :=
              <[pretty size := new_cluster_style (style_next M) size]>
                (styleCache M);
            style_next := S (style_next M) |})
    end.
Proof.
  intros Hf Hne. unfold makeClusterStyle. rewrite Hf.
  by destruct (Z.eqb_spec size 0).
Qed.

(** Case analysis on the [Qmin] and [Qmax] of the radius, closed by linear
    arithmetic. *)
Ltac radius_cases :=
  repeat match goal with
  | H : _ ∧ _ ∨ _ ∧ _ |- _ => destruct H as [[? ?]|[? ?]]
  end; lra.

Lemma cluster_radius_clamp (N : Z) :
  (cluster_radius N == clamp (0.75 * inject_Z N) 8 20)%Q.
Proof.
  unfold cluster_radius, clamp.
  pose proof (Q.min_spec (inject_Z N * 0.75) 20) as Hmin.
  pose proof (Q.max_spec 8 (Qmin (inject_Z N * 0.75) 20)) as Hmax.
  destruct (Qlt_le_dec (0.75 * inject_Z N) 8) as [H2|H2];
    [|destruct (Qlt_le_dec 20 (0.75 * inject_Z N)) as [H3|H3]];
    radius_cases.
Qed.

Lemma cluster_color_bucket (N : Z) :
  (1 ≤ N)%Z → cluster_color N = bucket_rgb (spec_bucket N).
Proof.
  intros HN. unfold cluster_color, spec_bucket.
  destruct (Z.ltb_spec 25 N); destruct (Z.ltb_spec 8 N);
    repeat case_decide; try reflexivity; lia.
Qed.

(** The radius by ranges of the count: the floor below 11, the cap from 27. *)
Lemma cluster_radius_ranges (N : Z) :
  ((N ≤ 10)%Z → (cluster_radius N == 8)%Q)
  ∧ ((11 ≤ N ≤ 26)%Z → (cluster_radius N == inject_Z N * 0.75)%Q)
  ∧ ((27 ≤ N)%Z → (cluster_radius N == 20)%Q).
Proof.
  unfold cluster_radius.
  pose proof (Q.min_spec (inject_Z N * 0.75) 20) as Hmin.
  pose proof (Q.max_spec 8 (Qmin (inject_Z N * 0.75) 20)) as Hmax.
  repeat split; intros H.
  - rewrite (Zle_Qle N 10) in H. change (inject_Z 10) with 10%Q in H.
    radius_cases.
  - destruct H as [Hlo Hhi].
    rewrite (Zle_Qle 11 N) in Hlo. rewrite (Zle_Qle N 26) in Hhi.
    change (inject_Z 11) with 11%Q in Hlo.
    change (inject_Z 26) with 26%Q in Hhi.
    radius_cases.
  - rewrite (Zle_Qle 27 N) in H. change (inject_Z 27) with 27%Q in H.
    radius_cases.
Qed.

Lemma clamp_max_min (x : Q) :
  (Qmax 8 (Qmin (0.75 * x) 20) == Qmax 8 (Qmin (x * 0.75) 20))%Q.
Proof.
  pose proof (Q.min_spec (0.75 * x) 20).
  pose proof (Q.min_spec (x * 0.75) 20).
  pose proof (Q.max_spec 8 (Qmin (0.75 * x) 20)).
  pose proof (Q.max_spec 8 (Qmin (x * 0.75) 20)).
  radius_cases.
Qed.

(** C2: on every state the module can be in, a feature whose first member
    carries a count N >= 1 gets a style whose radius is
    max(8, min(0.75*N, 20)), which is clamp(0.75*N, 8, 20), and whose fill and
    stroke use the green triple for N in (0,8], the orange one for N in
    (8,25] and the red one for N > 25; its label prints N. *)
Theorem makeClusterStyle_radius_color M feature (N : Z) :
  module_reachable M → (1 ≤ N)%Z → first_count feature = Some N →
  ∃ style,
    (makeClusterStyle feature M).1 = Some style
    ∧ (radius (image style) == Qmax 8 (Qmin (0.75 * inject_Z N) 20))%Q
    ∧ (radius (image style) == clamp (0.75 * inject_Z N) 8 20)%Q
    ∧ circle_fill (image style)
      = "rgba(" +:+ bucket_rgb (spec_bucket N) +:+ ",1)"
    ∧ stroke_color (circle_stroke (image style))
      = "rgba(" +:+ bucket_rgb (spec_bucket N) +:+ ",0.5)"
    ∧ text (text_style style) = pretty N.
Proof.
  intros HM HN Hf.
  assert (N ≠ 0%Z) as Hne by lia.
  assert (∃ ref, (makeClusterStyle feature M).1
                 = Some (new_cluster_style ref N)) as [ref Hret].
  { rewrite (makeClusterStyle_returns _ _ _ Hf Hne).
    destruct (styleCache M !! pretty N) as [cached|] eqn:Hhit; cbn.
    - destruct (module_reachable_sound _ HM _ _ Hhit) as (n & _ & Hkey & Hst).
      apply (inj pretty) in Hkey as <-. exists (style_ref cached).
      by rewrite <- Hst.
    - by eexists. }
  exists (new_cluster_style ref N). split; [exact Hret|]. cbn.
  rewrite <- (cluster_color_bucket N HN).
  split; [symmetry; apply clamp_max_min|].
  split; [apply cluster_radius_clamp|]. done.
Qed.

Lemma makeClusterStyle_radius_color_witness :
  let M := (makeClusterStyle (cluster_of 26) module_init).2 in
  ∃ style,
    (makeClusterStyle (cluster_of 26) M).1 = Some style
    ∧ (radius (image style) == Qmax 8 (Qmin (0.75 * inject_Z 26) 20))%Q
    ∧ (radius (image style) == clamp (0.75 * inject_Z 26) 8 20)%Q
    ∧ circle_fill (image style)
      = "rgba(" +:+ bucket_rgb (spec_bucket 26) +:+ ",1)"
    ∧ stroke_color (circle_stroke (image style))
      = "rgba(" +:+ bucket_rgb (spec_bucket 26) +:+ ",0.5)"
    ∧ text (text_style style) = pretty 26%Z.
Proof.
  intros M.
  apply (makeClusterStyle_radius_color M (cluster_of 26) 26).
  - apply reach_call, reach_init.
  - lia.
  - reflexivity.
Defined.

Example style_at_8 : style_summary 8 = Some (8%Q, "rgba(0,128,0,1)").
Proof. vm_compute. reflexivity. Qed.

Example style_at_9 : style_summary 9 = Some (8%Q, "rgba(255,128,0,1)").
Proof. vm_compute. reflexivity. Qed.

Example style_at_25 :
  style_summary 25 = Some ((25 * 0.75)%Q, "rgba(255,128,0,1)").
Proof. vm_compute. reflexivity. Qed.

Example style_at_26 :
  style_summary 26 = Some ((26 * 0.75)%Q, "rgba(192,0,0,1)").
Proof. vm_compute. reflexivity. Qed.

Example style_at_30 : style_summary 30 = Some (20%Q, "rgba(192,0,0,1)").
Proof. vm_compute. reflexivity. Qed.

Example style_lineDash_at_5 :
  (λ s, lineDash (circle_stroke (image s)))
    <$> (makeClusterStyle (cluster_of 5) module_init).1
  = Some [0; 16 / 6; 16 / 6; 16 / 6; 16 / 6; 16 / 6; 16 / 6]%Q.
Proof. vm_compute. reflexivity. Qed.

(** A call never changes an entry that is already in the cache. *)
Lemma makeClusterStyle_keeps feature M key style :
  styleCache M !! key = Some style →
  styleCache (makeClusterStyle feature M).2 !! key = Some style.
Proof.
  intros Hkey. unfold makeClusterStyle.
  destruct (first_count feature) as [size|]; [|done].
  destruct (size =? 0)%Z; [done|].
  destruct (styleCache M !! pretty size) eqn:Hhit; [done|].
  cbn. rewrite lookup_insert_ne; [done|]. intros <-. congruence.
Qed.

(** C8: for a count N >= 1, two calls on features whose first member carries
    N return the same style object, the one stored under N's key, and the
    second call leaves the module as it was; no call overwrites an entry of
    the cache. *)
Theorem makeClusterStyle_memoized M f1 f2 (N : Z) :
  (1 ≤ N)%Z → first_count f1 = Some N → first_count f2 = Some N →
  (∃ style,
     (makeClusterStyle f1 M).1 = Some style
     ∧ (makeClusterStyle f2 (makeClusterStyle f1 M).2).1 = Some style
     ∧ styleCache (makeClusterStyle f1 M).2 !! pretty N = Some style
     ∧ (makeClusterStyle f2 (makeClusterStyle f1 M).2).2
       = (makeClusterStyle f1 M).2)
  ∧ (∀ feature M' key style,
       styleCache M' !! key = Some style →
       styleCache (makeClusterStyle feature M').2 !! key = Some style).
Proof.
  intros HN Hf1 Hf2.
  assert (N ≠ 0%Z) as Hne by lia.
  split; [|intros; by apply makeClusterStyle_keeps].
  assert (∃ style, (makeClusterStyle f1 M).1 = Some style
            ∧ styleCache (makeClusterStyle f1 M).2 !! pretty N = Some style)
    as (style & Hret & Hcache).
  { rewrite (makeClusterStyle_returns _ _ _ Hf1 Hne).
    destruct (styleCache M !! pretty N) as [cached|] eqn:Hhit; cbn.
    - by exists cached.
    - eexists. split; [done|]. by rewrite lookup_insert_eq. }
  exists style. split; [done|].
  rewrite (makeClusterStyle_returns f2 _ _ Hf2 Hne), Hcache. done.
Qed.

Lemma makeClusterStyle_memoized_witness :
  let f1 := cluster_of 5 in
  let f2 := {| members :=
                 Some [ {| feature_ref := 7; geometry := None;
                           count := Some 5%Z |};
                        {| feature_ref := 8; geometry := None;
                           count := Some 40%Z |} ] |} in
  (∃ style,
     (makeClusterStyle f1 module_init).1 = Some style
     ∧ (makeClusterStyle f2 (makeClusterStyle f1 module_init).2).1
       = Some style
     ∧ styleCache (makeClusterStyle f1 module_init).2 !! pretty 5%Z
       = Some style
     ∧ (makeClusterStyle f2 (makeClusterStyle f1 module_init).2).2
       = (makeClusterStyle f1 module_init).2)
  ∧ (∀ feature M' key style,
       styleCache M' !! key = Some style →
       styleCache (makeClusterStyle feature M').2 !! key = Some style).
Proof.
  intros f1 f2.
  apply (makeClusterStyle_memoized module_init f1 f2 5);
    [lia | reflexivity | reflexivity].
Defined.

(** Without the cache the second call would build a second object: styles
    for different counts are different objects. *)
Example distinct_counts_distinct_styles :
  style_ref <$> (makeClusterStyle (cluster_of 5) module_init).1 = Some 0
  ∧ style_ref <$> (makeClusterStyle (cluster_of 6)
                     (makeClusterStyle (cluster_of 5) module_init).2).1
    = Some 1.
Proof. split; vm_compute; reflexivity. Qed.

(** ** Cluster pipeline *)

Section ClusterPipeline.

Context (E : Engine) (P : Props).

Lemma remove_first_unique (p : Layer → bool) ls :
  length (List.filter p ls) ≤ 1 →
  remove_first p ls = List.filter (λ l, negb (p l)) ls.
Proof.
  induction ls as [|l ls IH]; cbn; [done|].
  destruct (p l) eqn:Hp; cbn; intros Hlen.
  - assert (List.filter p ls = []) as Hnone
      by (destruct (List.filter p ls); [done | cbn in Hlen; lia]).
    clear IH Hlen. induction ls as [|x xs IHxs]; cbn in *; [done|].
    destruct (p x); [done|]. cbn. f_equal. by apply IHxs.
  - f_equal. by apply IH.
Qed.

Lemma filter_negb_none (p : Layer → bool) ls :
  List.filter p (List.filter (λ l, negb (p l)) ls) = [].
Proof.
  induction ls as [|l ls IH]; cbn; [done|].
  destruct (p l) eqn:Hp; cbn; [done|]. by rewrite Hp.
Qed.

Lemma cluster_layers_removed ls :
  length (cluster_layers ls) ≤ 1 →
  cluster_layers (remove_first (named "cluster-layer") ls) = [].
Proof.
  intros H. unfold cluster_layers in *.
  rewrite remove_first_unique by done. apply filter_negb_none.
Qed.

Lemma cluster_layers_app ls ls' :
  cluster_layers (ls ++ ls') = cluster_layers ls ++ cluster_layers ls'.
Proof. apply List.filter_app. Qed.

Lemma cluster_features_length ref items :
  length (cluster_features E ref items) = length items.
Proof.
  revert ref; induction items as [|it items IH]; intros ref; cbn;
    [done | by rewrite IH].
Qed.

Lemma cluster_features_count ref items :
  count <$> cluster_features E ref items = (Some ∘ item_count) <$> items.
Proof.
  revert ref; induction items as [|it items IH]; intros ref; cbn;
    [done | by rewrite IH].
Qed.

Lemma cluster_features_ref ref items f :
  f ∈ cluster_features E ref items →
  ref ≤ feature_ref f < ref + length items.
Proof.
  revert ref; induction items as [|it items IH]; intros ref; cbn.
  - by intros ?%elem_of_nil.
  - intros [->|Hin%IH]%elem_of_cons; cbn; lia.
Qed.

(** A refresh that resolves with at least one aggregate. *)
Lemma refresh_resolved_nonempty items c map :
  mapRef c = Some map → items ≠ [] →
  refresh E P (Resolved (Some items)) c =
    overlay_state
      (if isBirthCertificateLayerVisible c
       then addLayer (new_cluster_layer E (next_ref c) items)
              (remove_first (named "cluster-layer") (layers map))
       else remove_first (named "cluster-layer") (layers map))
      (Some (new_cluster_layer E (next_ref c) items))
      (S (next_ref c + length items)) map
      (setSummary items (emit [CallGetClusterCount] c)).
Proof.
  intros Hmap Hne. unfold refresh, refreshClusterSummary, clusterLayerEffect.
  cbn. rewrite Hmap. destruct items as [|it items]; [done|]. reflexivity.
Qed.

(** A refresh that resolves with no aggregate. *)
Lemma refresh_resolved_empty resp c map :
  mapRef c = Some map → resp = None ∨ resp = Some [] →
  refresh E P (Resolved resp) c =
    overlay_state (remove_first (named "cluster-layer") (layers map)) None
      (next_ref c) map (setSummary [] (emit [CallGetClusterCount] c)).
Proof.
  intros Hmap [->| ->]; unfold refresh, refreshClusterSummary,
    clusterLayerEffect; cbn; by rewrite Hmap.
Qed.

(** The overlay stays unique across refreshes. *)
Lemma refresh_overlay_unique outcome c :
  overlay_unique c → overlay_unique (refresh E P outcome c).
Proof.
  intros Hu. destruct outcome as [resp|e]; [|exact Hu].
  destruct (mapRef c) as [map|] eqn:Hmap.
  - specialize (Hu map Hmap).
    destruct resp as [[|it items]|].
    + rewrite (refresh_resolved_empty _ c map) by auto.
      intros ? [= <-]. cbn. rewrite cluster_layers_removed by done. cbn; lia.
    + rewrite (refresh_resolved_nonempty _ c map) by done.
      intros ? [= <-]. cbn.
      destruct (isBirthCertificateLayerVisible c); unfold addLayer;
        rewrite ?cluster_layers_app, cluster_layers_removed by done;
        cbn; lia.
    + rewrite (refresh_resolved_empty _ c map) by auto.
      intros ? [= <-]. cbn. rewrite cluster_layers_removed by done. cbn; lia.
  - intros map'. unfold refresh, refreshClusterSummary, clusterLayerEffect.
    cbn. rewrite Hmap. cbn. by rewrite Hmap.
Qed.

Lemma mount_overlay_unique groups :
  cluster_layers groups = [] → overlay_unique (mount groups).
Proof.
  intros H map [= <-]. cbn [layers]. rewrite H. cbn; lia.
Qed.

(** C3, amended: two successive refreshes resolve with non-empty lists of
    sizes M and N; whatever happened in between left at most one layer named
    "cluster-layer" on the map.  After the second, the held overlay is a layer
    of that name whose source has exactly N point features, tagged in order
    with the counts of the aggregates, none of them a feature of the overlay
    built from the M-list; the map carries exactly this one layer of that name
    when the Hospital Birth layer is visible as the second refresh resolves,
    and none when it is not. *)
Theorem refresh_replaces_overlay items1 items2 c c1' map map1' :
  mapRef c = Some map → items1 ≠ [] → items2 ≠ [] →
  mapRef c1' = Some map1' → overlay_unique c1' →
  next_ref (refresh E P (Resolved (Some items1)) c) ≤ next_ref c1' →
  ∃ layer map2,
    clusterLayer (refresh E P (Resolved (Some items2)) c1') = Some layer
    ∧ mapRef (refresh E P (Resolved (Some items2)) c1') = Some map2
    ∧ name layer = Some "cluster-layer"
    ∧ length (source_features layer) = length items2
    ∧ count <$> source_features layer = (Some ∘ item_count) <$> items2
    ∧ (∀ old f,
         clusterLayer (refresh E P (Resolved (Some items1)) c) = Some old →
         f ∈ source_features layer → f ∉ source_features old)
    ∧ cluster_layers (layers map2)
      = if isBirthCertificateLayerVisible c1' then [layer] else [].
Proof.
  intros Hmap Hne1 Hne2 Hmap1 Hu.
  rewrite (refresh_resolved_nonempty items1 c map Hmap Hne1).
  rewrite (refresh_resolved_nonempty items2 c1' map1' Hmap1 Hne2).
  cbn [next_ref overlay_state clusterLayer mapRef]. intros Hnext.
  eexists _, _. split; [reflexivity|]. split; [reflexivity|].
  split; [reflexivity|].
  unfold source_features; cbn [new_cluster_layer getSource].
  split; [apply cluster_features_length|].
  split; [apply cluster_features_count|].
  split.
  - intros old f [= <-] Hnew Hold. cbn [getSource] in Hold.
    apply cluster_features_ref in Hnew, Hold. lia.
  - cbn [layers set_layers]. specialize (Hu map1' Hmap1).
    destruct (isBirthCertificateLayerVisible c1'); unfold addLayer;
      rewrite ?cluster_layers_app, cluster_layers_removed by done; done.
Qed.

(** C6: when the aggregate fetch rejects and the host supplied an error
    channel, the error text is reported there and nothing else changes: the
    stored aggregates, the held overlay, the map with its layers and their
    features, and every other field are those of before the call. *)
Theorem refresh_failure_untouched e c n :
  notify P = Some n → has_error n = true →
  effects (refresh E P (Rejected e) c)
  = effects c ++ [CallGetClusterCount; NotifyError (error_text e)]
  ∧ summary (refresh E P (Rejected e) c) = summary c
  ∧ clusterLayer (refresh E P (Rejected e) c) = clusterLayer c
  ∧ mapRef (refresh E P (Rejected e) c) = mapRef c
  ∧ navigationCropFilter (refresh E P (Rejected e) c)
    = navigationCropFilter c
  ∧ clippedBoundary (refresh E P (Rejected e) c) = clippedBoundary c
  ∧ legendUrls (refresh E P (Rejected e) c) = legendUrls c
  ∧ pending (refresh E P (Rejected e) c) = pending c
  ∧ next_ref (refresh E P (Rejected e) c) = next_ref c.
Proof.
  intros Hn He. unfold refresh, refreshClusterSummary, notify_error.
  rewrite Hn, He. cbn. rewrite <- app_assoc. done.
Qed.

(** C10: when a refresh resolves with an empty list, or with a value that is
    not an array, the stored list is empty, the layer named "cluster-layer"
    is gone from the map while every other layer stays in place, nothing is
    allocated, and the held handle is cleared. *)
Theorem refresh_empty_erases resp c map :
  mapRef c = Some map → overlay_unique c →
  resp = None ∨ resp = Some [] →
  summary (refresh E P (Resolved resp) c) = []
  ∧ clusterLayer (refresh E P (Resolved resp) c) = None
  ∧ next_ref (refresh E P (Resolved resp) c) = next_ref c
  ∧ ∃ map',
      mapRef (refresh E P (Resolved resp) c) = Some map'
      ∧ cluster_layers (layers map') = []
      ∧ layers map'
        = List.filter (λ l, negb (named "cluster-layer" l)) (layers map).
Proof.
  intros Hmap Hu Hresp.
  rewrite (refresh_resolved_empty resp c map Hmap Hresp).
  specialize (Hu map Hmap).
  repeat split. eexists. split; [reflexivity|]. cbn [layers set_layers].
  split; [by apply cluster_layers_removed|].
  by apply remove_first_unique.
Qed.

End ClusterPipeline.

(** C3, as stated, fails: the gate lets the second refresh start while the
    Hospital Birth layer is visible; the layer is hidden while the fetch is in
    flight, and when the fetch resolves the rebuilt overlay is held but not
    attached, so the map carries no layer named "cluster-layer". *)
Lemma refresh_overlay_counterexample :
  let c1 := refresh demo_engine demo_props (Resolved (Some aggregates_two))
              (mount demo_groups) in
  let c2 := refresh demo_engine demo_props (Resolved (Some aggregates_one))
              (setVisible "Hospital Birth" false c1) in
  isBirthCertificateLayerVisible c1 = true
  ∧ (cluster_layers <$> (layers <$> mapRef c1))
    = Some [new_cluster_layer demo_engine 5 aggregates_two]
  ∧ (cluster_layers <$> (layers <$> mapRef c2)) = Some []
  ∧ ¬ (∃ map2, mapRef c2 = Some map2
               ∧ length (cluster_layers (layers map2)) = 1).
Proof.
  cbv zeta. repeat split; try (vm_compute; reflexivity).
  intros (map2 & Hmap & Hlen). vm_compute in Hmap.
  injection Hmap as <-. vm_compute in Hlen. discriminate.
Qed.

Lemma refresh_replaces_overlay_witness :
  let E := demo_engine in
  let P := demo_props in
  let c1 := refresh E P (Resolved (Some aggregates_two))
              (mount demo_groups) in
  ∃ layer map2,
    clusterLayer (refresh E P (Resolved (Some aggregates_one)) c1)
    = Some layer
    ∧ mapRef (refresh E P (Resolved (Some aggregates_one)) c1) = Some map2
    ∧ name layer = Some "cluster-layer"
    ∧ length (source_features layer) = length aggregates_one
    ∧ count <$> source_features layer
      = (Some ∘ item_count) <$> aggregates_one
    ∧ (∀ old f,
         clusterLayer c1 = Some old →
         f ∈ source_features layer → f ∉ source_features old)
    ∧ cluster_layers (layers map2)
      = if isBirthCertificateLayerVisible c1 then [layer] else [].
Proof.
  intros E P c1.
  eapply (refresh_replaces_overlay E P aggregates_two aggregates_one
            (mount demo_groups) c1).
  - reflexivity.
  - discriminate.
  - discriminate.
  - vm_compute. reflexivity.
  - intros map' Hmap'. vm_compute in Hmap'. injection Hmap' as <-.
    vm_compute. lia.
  - vm_compute. lia.
Defined.

Lemma refresh_failure_untouched_witness :
  let e := {| message := Some "Network Error";
              as_string := "Error: Network Error" |} in
  let c := refresh demo_engine demo_props (Resolved (Some aggregates_two))
             (mount demo_groups) in
  effects (refresh demo_engine demo_props (Rejected e) c)
  = effects c ++ [CallGetClusterCount; NotifyError "Network Error"]
  ∧ summary (refresh demo_engine demo_props (Rejected e) c) = summary c
  ∧ clusterLayer (refresh demo_engine demo_props (Rejected e) c)
    = clusterLayer c
  ∧ mapRef (refresh demo_engine demo_props (Rejected e) c) = mapRef c
  ∧ navigationCropFilter (refresh demo_engine demo_props (Rejected e) c)
    = navigationCropFilter c
  ∧ clippedBoundary (refresh demo_engine demo_props (Rejected e) c)
    = clippedBoundary c
  ∧ legendUrls (refresh demo_engine demo_props (Rejected e) c)
    = legendUrls c
  ∧ pending (refresh demo_engine demo_props (Rejected e) c) = pending c
  ∧ next_ref (refresh demo_engine demo_props (Rejected e) c) = next_ref c.
Proof.
  intros e c.
  apply (refresh_failure_untouched demo_engine demo_props e c
           {| has_warn := true; has_error := true |});
    reflexivity.
Defined.

Lemma refresh_empty_erases_witness :
  let c := refresh demo_engine demo_props (Resolved (Some aggregates_two))
             (mount demo_groups) in
  (cluster_layers <$> (layers <$> mapRef c))
  = Some [new_cluster_layer demo_engine 5 aggregates_two]
  ∧ summary (refresh demo_engine demo_props (Resolved None) c) = []
  ∧ clusterLayer (refresh demo_engine demo_props (Resolved None) c) = None
  ∧ next_ref (refresh demo_engine demo_props (Resolved None) c)
    = next_ref c
  ∧ ∃ map',
      mapRef (refresh demo_engine demo_props (Resolved None) c) = Some map'
      ∧ cluster_layers (layers map') = []
      ∧ layers map' = demo_groups.
Proof.
  intros c. split; [vm_compute; reflexivity|].
  refine (refresh_empty_erases demo_engine demo_props None c
            (set_layers
               (demo_groups ++ [new_cluster_layer demo_engine 5 aggregates_two])
               {| layers := []; singleclick := [bound] |}) _ _ _).
  - vm_compute. reflexivity.
  - intros map' Hmap'. vm_compute in Hmap'. injection Hmap' as <-.
    vm_compute. lia.
  - left. reflexivity.
Defined.

(** The two aggregates of the end-to-end scenario: two features, the first
    styled red at radius 20, the second green at radius 8. *)
Example cluster_end_to_end :
  let c := refresh demo_engine demo_props (Resolved (Some aggregates_two))
             (mount demo_groups) in
  (count <$> (default [] (source_features <$> clusterLayer c)))
  = [Some 30%Z; Some 5%Z]
  ∧ style_summary 30 = Some (20%Q, "rgba(192,0,0,1)")
  ∧ style_summary 5 = Some (8%Q, "rgba(0,128,0,1)").
Proof. cbv zeta. repeat split; vm_compute; reflexivity. Qed.

(** ** Clip pipeline *)

Section ClipPipeline.

Context (E : Engine) (P : Props).

(** A clip that completes went through every step. *)
Lemma clip_fulfilled body outcome c c' map :
  mapRef c = Some map → clip E P body outcome c = (Fulfilled, c') →
  ∃ res gs coords,
    outcome = Resolved res
    ∧ readFeatures E (geojson_text res) = inr gs
    ∧ last_coordinates gs = Some coords
    ∧ c' = clip_state
             (apply_mask E P (navigationCropFilter c)
                (new_crop (S (next_ref c + length gs)) coords)
              <$> addLayer (new_boundary_layer (next_ref c) gs)
                    (retired_layers c map))
             (Some (new_boundary_layer (next_ref c) gs))
             (Some (new_crop (S (next_ref c + length gs)) coords))
             [CallFetchBoundary body] (S (S (next_ref c + length gs))) map c.
Proof.
  intros Hmap. unfold clip. rewrite Hmap.
  destruct outcome as [res|e]; [|done].
  destruct (readFeatures E (geojson_text res)) as [e|gs] eqn:Hread; [done|].
  destruct (last_coordinates gs) as [coords|] eqn:Hlast; [|done].
  intros [= <-]. by exists res, gs, coords.
Qed.

Lemma exempt_iff lyr : exempt P lyr = true ↔ listed P lyr.
Proof.
  unfold listed, exempt, truthy_string. destruct (name lyr) as [nm|].
  - rewrite andb_true_iff, negb_true_iff, bool_decide_eq_true.
    split.
    + intros [Hne Hin]. exists nm. split; [done|]. split; [|done].
      by apply String.eqb_neq.
    + intros (nm' & [= <-] & Hne & Hin). split; [|done].
      by apply String.eqb_neq.
  - split; [done|]. by intros (? & ? & _).
Qed.

Lemma apply_mask_carries old crop lyr :
  exempt P lyr = false → carries crop (apply_mask E P old crop lyr).
Proof.
  intros Hex. unfold apply_mask, carries. rewrite Hex. cbn.
  rewrite fmap_app. apply elem_of_app. right. cbn. apply list_elem_of_here.
Qed.

Lemma apply_mask_exempt old crop lyr :
  exempt P (apply_mask E P old crop lyr) = exempt P lyr.
Proof. unfold apply_mask. by destruct (exempt P lyr) eqn:Hex. Qed.

Lemma apply_mask_name old crop lyr :
  name (apply_mask E P old crop lyr) = name lyr.
Proof. unfold apply_mask. by destruct (exempt P lyr). Qed.

Lemma remove_first_subseteq (p : Layer → bool) ls :
  remove_first p ls ⊆ ls.
Proof.
  induction ls as [|l ls IH]; cbn; [done|].
  destruct (p l); [intros x Hx; by right|].
  intros x [->|Hx]%elem_of_cons; [left|right; by apply IH].
Qed.

Lemma retired_layers_subseteq c map : retired_layers c map ⊆ layers map.
Proof.
  unfold retired_layers, removeLayer.
  destruct (clippedBoundary c); [apply remove_first_subseteq | done].
Qed.

Lemma exempt_false_iff lyr : exempt P lyr = false ↔ ¬ listed P lyr.
Proof. rewrite <- exempt_iff. by destruct (exempt P lyr). Qed.

(** A layer the mask pass leaves alone does not carry the new filter. *)
Lemma fresh_crop_not_carried c map ref coords gs lyr :
  mapRef c = Some map → refs_allocated c → next_ref c ≤ ref →
  lyr ∈ addLayer (new_boundary_layer (next_ref c) gs) (retired_layers c map) →
  ¬ carries (new_crop ref coords) lyr.
Proof.
  intros Hmap Hrefs Hle [Hin|Hin]%elem_of_app; unfold carries; cbn.
  - apply retired_layers_subseteq in Hin.
    intros (f & Hf & Hfin)%list_elem_of_fmap.
    specialize (Hrefs map lyr f Hmap Hin Hfin). lia.
  - apply list_elem_of_singleton in Hin as ->. cbn. apply not_elem_of_nil.
Qed.

(** C5, amended: after a clip that completes, on a map whose filters were
    all allocated earlier, the layers of the map split in two: a layer whose
    name is a non-empty string of the exemption list does not carry the new
    mask, and every other layer, unnamed or named by the empty string
    included, carries it. *)
Theorem clip_exemption body outcome c c' map :
  mapRef c = Some map → refs_allocated c →
  clip E P body outcome c = (Fulfilled, c') →
  ∃ crop map',
    navigationCropFilter c' = Some crop ∧ mapRef c' = Some map'
    ∧ ∀ lyr, lyr ∈ layers map' →
        (listed P lyr → ¬ carries crop lyr)
        ∧ (¬ listed P lyr → carries crop lyr).
Proof.
  intros Hmap Hrefs Hclip.
  destruct (clip_fulfilled body outcome c c' map Hmap Hclip)
    as (res & gs & coords & -> & Hread & Hlast & ->).
  eexists _, _. split; [reflexivity|]. split; [reflexivity|].
  cbn [layers set_layers].
  intros lyr (l0 & -> & Hin)%list_elem_of_fmap.
  rewrite <- exempt_false_iff, <- exempt_iff, apply_mask_exempt.
  split; intros Hex.
  - unfold apply_mask. rewrite Hex.
    eapply fresh_crop_not_carried; eauto. lia.
  - by apply apply_mask_carries.
Qed.

(** C9: the exemption test holds exactly for a layer whose name is a
    non-empty string of the exemption list; so after a clip that completes,
    whatever the list contains, every layer of the map without a name carries
    the new mask. *)
Theorem clip_masks_unnamed body outcome c c' map :
  mapRef c = Some map → clip E P body outcome c = (Fulfilled, c') →
  (∀ lyr, exempt P lyr = true
          ↔ ∃ nm, name lyr = Some nm ∧ truthy_string nm = true
                  ∧ nm ∈ skipClipLayerNames P)
  ∧ ∃ crop map',
      navigationCropFilter c' = Some crop ∧ mapRef c' = Some map'
      ∧ (name <$> layers map')
        = (name <$> retired_layers c map) ++ [Some "navigation-boundary"]
      ∧ ∀ lyr, lyr ∈ layers map' → name lyr = None → carries crop lyr.
Proof.
  intros Hmap Hclip. split.
  - intros lyr. rewrite exempt_iff. unfold listed, truthy_string.
    split; intros (nm & Hnm & Hne & Hin); exists nm; (split; [done|]);
      (split; [|done]).
    + rewrite negb_true_iff. by apply String.eqb_neq.
    + rewrite negb_true_iff in Hne. by apply String.eqb_neq.
  - destruct (clip_fulfilled body outcome c c' map Hmap Hclip)
      as (res & gs & coords & -> & Hread & Hlast & ->).
    eexists _, _. split; [reflexivity|]. split; [reflexivity|].
    cbn [layers set_layers]. split.
    + rewrite <- list_fmap_compose. unfold addLayer.
      rewrite fmap_app. cbn. f_equal.
      * apply list_fmap_ext. intros ? lyr _. apply apply_mask_name.
      * by rewrite apply_mask_name.
    + intros lyr (l0 & -> & Hin)%list_elem_of_fmap Hname.
      apply apply_mask_carries. rewrite apply_mask_name in Hname.
      unfold exempt. by rewrite Hname.
Qed.

Lemma geojson_text_no_payload res : no_payload res → geojson_text res = "{}".
Proof.
  unfold no_payload, geojson_text.
  destruct res as [[|row rows]|]; try done.
  by intros [-> | ->].
Qed.

(** C1, amended: [clip] has no test of its own for a fetch without geometry.
    A missing payload is read as the text [{}].  If the reader throws on the
    text, [clip] rejects with the layers as step 1 left them and the recorded
    mask unchanged: steps 3 to 6 do not run.  If the reader returns no
    feature, [clip] completes: an outline layer named "navigation-boundary"
    with an empty source is added and held, a mask over the empty
    multi-polygon is built, active, recorded, and carried by every layer of
    the map that the exemption test does not skip. *)
Theorem clip_no_guard body res c map :
  mapRef c = Some map →
  (no_payload res → geojson_text res = "{}")
  ∧ (∀ e, readFeatures E (geojson_text res) = inl e →
       (clip E P body (Resolved res) c).1 = Threw e
       ∧ skips_steps_3_to_6 E P body res c)
  ∧ (readFeatures E (geojson_text res) = inr [] →
       (clip E P body (Resolved res) c).1 = Fulfilled
       ∧ ∃ outline crop map',
           clippedBoundary (clip E P body (Resolved res) c).2 = Some outline
           ∧ navigationCropFilter (clip E P body (Resolved res) c).2
             = Some crop
           ∧ mapRef (clip E P body (Resolved res) c).2 = Some map'
           ∧ name outline = Some "navigation-boundary"
           ∧ source_features outline = []
           ∧ (layer_ref <$> layers map')
             = (layer_ref <$> retired_layers c map) ++ [layer_ref outline]
           ∧ crop_feature crop = MultiPolygon []
           ∧ active crop = true
           ∧ ∀ lyr, lyr ∈ layers map' → exempt P lyr = false →
               carries crop lyr).
Proof.
  intros Hmap. split; [apply geojson_text_no_payload|]. split.
  - intros e Hread. unfold skips_steps_3_to_6, clip.
    rewrite Hmap, Hread. cbn. split; [done|].
    by intros map0 [= <-].
  - intros Hread. unfold clip. rewrite Hmap, Hread. cbn.
    split; [done|]. eexists _, _, _.
    do 5 (split; [reflexivity|]).
    split; [|split; [reflexivity|split; [reflexivity|]]].
    + cbn [layers set_layers]. unfold addLayer.
      rewrite <- list_fmap_compose, fmap_app. cbn. f_equal.
      * apply list_fmap_ext. intros ? lyr _. cbn. unfold apply_mask.
        by destruct (exempt P lyr).
      * unfold apply_mask. by destruct (exempt P _).
    + intros lyr (l0 & -> & Hin)%list_elem_of_fmap Hex.
      apply apply_mask_carries. by rewrite apply_mask_exempt in Hex.
Qed.

(** The allocation invariant holds at mount and across [clip]. *)
Lemma max_list_bound (ns : list nat) n :
  n ∈ ns → n ≤ foldr Nat.max 0 ns.
Proof.
  induction ns as [|m ns IH]; [by intros ?%elem_of_nil|].
  intros [->|Hin%IH]%elem_of_cons; cbn; lia.
Qed.

Lemma mount_refs_allocated groups : refs_allocated (mount groups).
Proof.
  intros map lyr f [= <-] Hin Hf. cbn in *. unfold fresh_above.
  apply Nat.lt_succ_r, max_list_bound, elem_of_app. right.
  apply list_elem_of_bind. exists lyr. split; [|done].
  by apply list_elem_of_fmap_2.
Qed.

Lemma clip_refs_allocated body outcome c :
  (∀ old fs f, f ∈ removeFilter E old fs → f ∈ fs) →
  refs_allocated c → refs_allocated (clip E P body outcome c).2.
Proof.
  intros Hremove Hrefs. destruct (mapRef c) as [map|] eqn:Hmap;
    [|unfold clip; by rewrite Hmap].
  assert (∀ lyr f, lyr ∈ retired_layers c map → f ∈ filters lyr →
                   filter_ref f < next_ref c) as Hold.
  { intros lyr f Hin. apply (Hrefs map lyr f Hmap).
    by apply (retired_layers_subseteq c map). }
  unfold clip. rewrite Hmap.
  destruct outcome as [res|e];
    [destruct (readFeatures E (geojson_text res)) as [e|gs];
     [|destruct (last_coordinates gs) as [coords|]]|];
    intros map' lyr f [= <-]; cbn [layers set_layers next_ref clip_state snd].
  - apply Hold.
  - intros (l0 & -> & [Hin|Hin]%elem_of_app)%list_elem_of_fmap;
      unfold apply_mask; destruct (exempt P l0); cbn.
    + intros Hf. specialize (Hold l0 f Hin Hf). lia.
    + intros [Hf%Hremove|Hf%list_elem_of_singleton]%elem_of_app.
      * specialize (Hold l0 f Hin Hf). lia.
      * subst f. cbn. lia.
    + apply list_elem_of_singleton in Hin as ->. by intros ?%elem_of_nil.
    + apply list_elem_of_singleton in Hin as ->. cbn.
      intros [Hf%Hremove|Hf%list_elem_of_singleton]%elem_of_app.
      * by apply elem_of_nil in Hf.
      * subst f. cbn. lia.
  - intros [Hin|Hin]%elem_of_app.
    + intros Hf. specialize (Hold lyr f Hin Hf). lia.
    + apply list_elem_of_singleton in Hin as ->. by intros ?%elem_of_nil.
  - apply Hold.
Qed.

End ClipPipeline.

(** C5, as stated, fails: with the empty string in the exemption list, a
    layer whose name is the empty string has its name in the list and still
    carries the new mask after a successful clip. *)
Lemma clip_exemption_counterexample :
  let P := props_skipping [""] in
  let c := mount [tile 0 (Some "") true None] in
  let r := clip demo_engine P demo_body
             (Resolved (Some [{| st_asgeojson := Some square_text |}])) c in
  r.1 = Fulfilled
  ∧ ∃ crop map' lyr,
      navigationCropFilter r.2 = Some crop ∧ mapRef r.2 = Some map'
      ∧ lyr ∈ layers map'
      ∧ (∃ nm, name lyr = Some nm ∧ nm ∈ skipClipLayerNames P)
      ∧ carries crop lyr.
Proof.
  cbv zeta. split; [vm_compute; reflexivity|].
  eexists _, _, _. split; [vm_compute; reflexivity|].
  split; [vm_compute; reflexivity|].
  split; [apply list_elem_of_here|].
  split.
  - exists "". split; [reflexivity|]. cbn. apply list_elem_of_here.
  - unfold carries. cbn. apply list_elem_of_here.
Qed.

Lemma clip_exemption_witness :
  let r := clip demo_engine demo_props demo_body
             (Resolved (Some [{| st_asgeojson := Some square_text |}]))
             (mount demo_groups) in
  r.1 = Fulfilled
  ∧ ∃ crop map',
      navigationCropFilter r.2 = Some crop ∧ mapRef r.2 = Some map'
      ∧ ∀ lyr, lyr ∈ layers map' →
          (listed demo_props lyr → ¬ carries crop lyr)
          ∧ (¬ listed demo_props lyr → carries crop lyr).
Proof.
  intros r. split; [vm_compute; reflexivity|].
  eapply (clip_exemption demo_engine demo_props demo_body
            (Resolved (Some [{| st_asgeojson := Some square_text |}]))
            (mount demo_groups)).
  - reflexivity.
  - intros map lyr f [= <-] Hin Hf. cbn in Hin.
    repeat (apply elem_of_cons in Hin as [->|Hin];
            [by apply elem_of_nil in Hf|]).
    by apply elem_of_nil in Hin.
  - vm_compute. reflexivity.
Defined.

Lemma clip_masks_unnamed_witness :
  let P := props_skipping [""; "Aerial"] in
  let r := clip demo_engine P demo_body
             (Resolved (Some [{| st_asgeojson := Some square_text |}]))
             (mount demo_groups) in
  (∀ lyr, exempt P lyr = true
          ↔ ∃ nm, name lyr = Some nm ∧ truthy_string nm = true
                  ∧ nm ∈ skipClipLayerNames P)
  ∧ ∃ crop map',
      navigationCropFilter r.2 = Some crop ∧ mapRef r.2 = Some map'
      ∧ (name <$> layers map')
        = (name <$> demo_groups) ++ [Some "navigation-boundary"]
      ∧ ∀ lyr, lyr ∈ layers map' → name lyr = None → carries crop lyr.
Proof.
  intros P r.
  refine (clip_masks_unnamed demo_engine P demo_body
            (Resolved (Some [{| st_asgeojson := Some square_text |}]))
            (mount demo_groups) r.2
            {| layers := demo_groups; singleclick := [bound] |} _ _).
  - reflexivity.
  - vm_compute. reflexivity.
Defined.

(** C1, as stated, fails: the fetch resolves with an empty feature
    collection, the reader finds no feature in it, and [clip] still completes
    with the outline layer on the map and a mask over an empty multi-polygon
    recorded and attached. *)
Lemma clip_no_geometry_counterexample :
  let res := Some [{| st_asgeojson := Some empty_collection_text |}] in
  let c := mount demo_groups in
  let r := clip demo_engine demo_props demo_body (Resolved res) c in
  readFeatures demo_engine (geojson_text res) = inr []
  ∧ r.1 = Fulfilled
  ∧ (name <$> clippedBoundary r.2) = Some (Some "navigation-boundary")
  ∧ (crop_feature <$> navigationCropFilter r.2) = Some (MultiPolygon [])
  ∧ ¬ skips_steps_3_to_6 demo_engine demo_props demo_body res c.
Proof.
  cbv zeta. repeat split; try (vm_compute; reflexivity).
  intros Hskip.
  destruct (Hskip {| layers := demo_groups; singleclick := [bound] |}
              eq_refl) as [_ Hmask].
  vm_compute in Hmask. discriminate.
Qed.

Lemma clip_no_guard_witness :
  let E := demo_engine in
  let P := demo_props in
  let res := Some [{| st_asgeojson := Some empty_collection_text |}] in
  let c := mount demo_groups in
  (no_payload res → geojson_text res = "{}")
  ∧ (∀ e, readFeatures E (geojson_text res) = inl e →
       (clip E P demo_body (Resolved res) c).1 = Threw e
       ∧ skips_steps_3_to_6 E P demo_body res c)
  ∧ (readFeatures E (geojson_text res) = inr [] →
       (clip E P demo_body (Resolved res) c).1 = Fulfilled
       ∧ ∃ outline crop map',
           clippedBoundary (clip E P demo_body (Resolved res) c).2
           = Some outline
           ∧ navigationCropFilter (clip E P demo_body (Resolved res) c).2
             = Some crop
           ∧ mapRef (clip E P demo_body (Resolved res) c).2 = Some map'
           ∧ name outline = Some "navigation-boundary"
           ∧ source_features outline = []
           ∧ (layer_ref <$> layers map') = [0; 1; 2; 3; 4; layer_ref outline]
           ∧ crop_feature crop = MultiPolygon []
           ∧ active crop = true
           ∧ ∀ lyr, lyr ∈ layers map' → exempt P lyr = false →
               carries crop lyr).
Proof.
  intros E P res c.
  refine (clip_no_guard E P demo_body res c
            {| layers := demo_groups; singleclick := [bound] |} _).
  reflexivity.
Defined.

(** An absent payload on the same engine: the reader throws on [{}], so
    nothing is built and the rejection reaches the notifier. *)
Example clip_absent_payload :
  let c := initialClipEffect demo_engine demo_props (Some demo_body)
             (Resolved (Some [])) (mount demo_groups) in
  effects c
  = [CallFetchBoundary demo_body;
     NotifyError "Unsupported GeoJSON type: undefined"]
  ∧ (layers <$> mapRef c) = Some demo_groups
  ∧ navigationCropFilter c = None.
Proof. cbv zeta. repeat split; vm_compute; reflexivity. Qed.

(** The square boundary: one outline layer, and the mask on every layer but
    the two exempt ones. *)
Example clip_square :
  let r := clip demo_engine demo_props demo_body
             (Resolved (Some [{| st_asgeojson := Some square_text |}]))
             (mount demo_groups) in
  r.1 = Fulfilled
  ∧ ((λ m, (λ l, (name l, filter_ref <$> filters l)) <$> layers m)
       <$> mapRef r.2)
    = Some [ (Some "Aerial", []); (Some "Hospital Birth", [7]);
             (None, [7]); (Some "Google", []); (Some "Parcels", [7]);
             (Some "navigation-boundary", [7]) ].
Proof. cbv zeta. split; vm_compute; reflexivity. Qed.

(** ** Legend builder *)

Section LegendBuilder.

Context (E : Engine) (P : Props).

Lemma legend_entry_spec layer url :
  legend_entry E P layer = Some url
  ↔ getVisible layer = true
    ∧ ∃ LAYERS url0 rest blob,
        getSource layer = Some (ParamSource (Some LAYERS) (Some (url0 :: rest)))
        ∧ LAYERS ≠ "" ∧ url0 ≠ ""
        ∧ buildLegendBlob P (makeLegendUrl P url0 LAYERS) = Some blob
        ∧ url = createObjectURL E blob.
Proof.
  unfold legend_entry, legend_request, truthy_string. split.
  - destruct (getVisible layer); [|done].
    destruct (getSource layer) as [[| |[LAYERS|] [[|url0 rest]|]]|];
      try done.
    destruct (String.eqb_spec LAYERS ""); [done|].
    destruct (String.eqb_spec url0 ""); [done|]. cbn.
    destruct (buildLegendBlob P _) as [blob|] eqn:Hblob; [|done].
    intros [= <-]. split; [done|]. by exists LAYERS, url0, rest, blob.
  - intros (-> & LAYERS & url0 & rest & blob & -> & HL & Hu & Hblob & ->).
    destruct (String.eqb_spec LAYERS ""); [done|].
    destruct (String.eqb_spec url0 ""); [done|]. cbn. by rewrite Hblob.
Qed.

Lemma legend_urls_omap ls :
  (∀ blob, createObjectURL E blob ≠ "") →
  List.filter truthy_string
    (legend_promise E P <$> legend_requests P (List.filter getVisible ls))
  = omap (legend_entry E P) ls.
Proof.
  intros Hurl. induction ls as [|layer ls IH]; [done|].
  cbn. unfold legend_entry at 1.
  destruct (getVisible layer); [|exact IH]. cbn.
  destruct (legend_request P layer) as [legendUrl|]; [|exact IH]. cbn.
  change (legend_promise E P legendUrl)
    with (match buildLegendBlob P legendUrl with
          | Some blob => createObjectURL E blob
          | None => ""
          end).
  destruct (buildLegendBlob P legendUrl) as [blob|]; cbn; [|exact IH].
  unfold truthy_string at 1.
  destruct (String.eqb_spec (createObjectURL E blob) "") as [Hempty|_].
  - by destruct (Hurl blob).
  - cbn. by rewrite IH.
Qed.

(** C7: with object URLs that are never empty, a rebuild sets the legend
    list to the entries of the map's layers taken in order, one for each
    layer that is visible, has a non-empty LAYERS parameter and a non-empty
    first URL, and whose fetch succeeded; every other layer contributes
    nothing, and the result does not depend on the list shown before. *)
Theorem buildLegends_entries c map :
  mapRef c = Some map → (∀ blob, createObjectURL E blob ≠ "") →
  legendUrls (buildLegendsForVisibleWmsLayers E P c)
  = omap (legend_entry E P) (layers map)
  ∧ (∀ layer url,
       legend_entry E P layer = Some url
       ↔ getVisible layer = true
         ∧ ∃ LAYERS url0 rest blob,
             getSource layer
             = Some (ParamSource (Some LAYERS) (Some (url0 :: rest)))
             ∧ LAYERS ≠ "" ∧ url0 ≠ ""
             ∧ buildLegendBlob P (makeLegendUrl P url0 LAYERS) = Some blob
             ∧ url = createObjectURL E blob)
  ∧ (∀ c', mapRef c' = Some map →
       legendUrls (buildLegendsForVisibleWmsLayers E P c')
       = legendUrls (buildLegendsForVisibleWmsLayers E P c)).
Proof.
  intros Hmap Hurl.
  assert (∀ c0, mapRef c0 = Some map →
            legendUrls (buildLegendsForVisibleWmsLayers E P c0)
            = omap (legend_entry E P) (layers map)) as Hall.
  { intros c0 Hmap0. unfold buildLegendsForVisibleWmsLayers.
    rewrite Hmap0. cbn. by apply legend_urls_omap. }
  split; [by apply Hall|]. split; [apply legend_entry_spec|].
  intros c' Hmap'. by rewrite !Hall.
Qed.

End LegendBuilder.

Lemma demo_object_url blob : createObjectURL demo_engine blob ≠ "".
Proof. discriminate. Qed.

Lemma buildLegends_entries_witness :
  let E := demo_engine in
  let P := demo_props in
  let c := mount demo_groups in
  legendUrls (buildLegendsForVisibleWmsLayers E P c)
  = omap (legend_entry E P) demo_groups
  ∧ (∀ layer url,
       legend_entry E P layer = Some url
       ↔ getVisible layer = true
         ∧ ∃ LAYERS url0 rest blob,
             getSource layer
             = Some (ParamSource (Some LAYERS) (Some (url0 :: rest)))
             ∧ LAYERS ≠ "" ∧ url0 ≠ ""
             ∧ buildLegendBlob P (makeLegendUrl P url0 LAYERS) = Some blob
             ∧ url = createObjectURL E blob)
  ∧ (∀ c', mapRef c' = Some {| layers := demo_groups;
                               singleclick := [bound] |} →
       legendUrls (buildLegendsForVisibleWmsLayers E P c')
       = legendUrls (buildLegendsForVisibleWmsLayers E P c)).
Proof.
  intros E P c.
  refine (buildLegends_entries E P c
            {| layers := demo_groups; singleclick := [bound] |} _ _).
  - reflexivity.
  - apply demo_object_url.
Defined.

(** Five layers: one without a source, one whose fetch rejects, one hidden;
    the two others give the two entries, in layer order. *)
Example legends_partial_failure :
  legendUrls
    (buildLegendsForVisibleWmsLayers demo_engine demo_props
       (mount demo_groups))
  = ["blob:68"; "blob:74"].
Proof. vm_compute. reflexivity. Qed.

(** ** Identify interaction *)

Section IdentifyInteraction.

Context (E : Engine) (P : Props).

Lemma not_village_is_bound (k : Listener) : k ≠ villageClickEvent → k = bound.
Proof. by destruct k. Qed.

(** Listeners other than [villageClickEvent] only animate. *)
Lemma run_bound_only evt ks c :
  villageClickEvent ∉ ks →
  mapRef (foldl (run_listener E evt) c ks) = mapRef c
  ∧ pending (foldl (run_listener E evt) c ks) = pending c
  ∧ effects (foldl (run_listener E evt) c ks)
    = effects c ++ replicate (length ks) (AnimateFeature evt).
Proof.
  revert c. induction ks as [|k ks IH]; intros c Hnot.
  - cbn. by rewrite app_nil_r.
  - apply not_elem_of_cons in Hnot as [Hk Hks].
    rewrite (not_village_is_bound k) by done. cbn [foldl run_listener].
    destruct (IH (emit [AnimateFeature evt] c) Hks) as (-> & -> & ->).
    cbn. by rewrite <- app_assoc.
Qed.

Lemma villageClickEvent_call_spec evt c map :
  mapRef c = Some map →
  mapRef (villageClickEvent_call E evt c) = mapRef c
  ∧ pending (villageClickEvent_call E evt c) = pending c ++ [wktPoint E evt]
  ∧ effects (villageClickEvent_call E evt c)
    = effects c ++ [AnimateFeature evt; CallGetSDTV (wktPoint E evt)].
Proof.
  intros Hmap. unfold villageClickEvent_call. by rewrite Hmap.
Qed.

(** A click while the listener is installed once: one call goes out. *)
Lemma click_armed evt c map :
  mapRef c = Some map → NoDup (singleclick map) →
  villageClickEvent ∈ singleclick map →
  mapRef (singleclick_event E c evt) = mapRef c
  ∧ pending (singleclick_event E c evt) = pending c ++ [wktPoint E evt]
  ∧ ∃ es, effects (singleclick_event E c evt) = effects c ++ es
          ∧ CallGetSDTV (wktPoint E evt) ∈ es.
Proof.
  intros Hmap Hnd Hin. unfold singleclick_event. rewrite Hmap.
  apply list_elem_of_split in Hin as (l1 & l2 & Hks). rewrite Hks in *.
  apply NoDup_app in Hnd as (_ & Hl1 & [Hl2 _]%NoDup_cons).
  assert (villageClickEvent ∉ l1) as Hl1' by (intros ?; eapply Hl1; [done|left]).
  rewrite foldl_app. cbn [foldl run_listener].
  destruct (run_bound_only evt l1 c Hl1') as (Hm1 & Hp1 & He1).
  destruct (villageClickEvent_call_spec evt
              (foldl (run_listener E evt) c l1) map) as (Hm2 & Hp2 & He2);
    [by rewrite Hm1|].
  destruct (run_bound_only evt l2
              (villageClickEvent_call E evt
                 (foldl (run_listener E evt) c l1)) Hl2) as (-> & -> & ->).
  rewrite Hm2, Hm1, Hp2, Hp1, He2, He1.
  split; [done|]. split; [done|].
  eexists. rewrite <- !app_assoc. split; [reflexivity|].
  apply elem_of_app. right. apply elem_of_app. left.
  apply elem_of_cons. right. apply list_elem_of_here.
Qed.

(** A click while the listener is not installed: feedback only. *)
Lemma click_idle evt c :
  villageClickEvent ∉ listeners c →
  mapRef (singleclick_event E c evt) = mapRef c
  ∧ pending (singleclick_event E c evt) = pending c
  ∧ ∃ es, effects (singleclick_event E c evt) = effects c ++ es
          ∧ Forall (λ e, identify_effect e = false) es.
Proof.
  unfold listeners, singleclick_event. destruct (mapRef c) as [map|] eqn:Hmap.
  - intros Hnot.
    destruct (run_bound_only evt (singleclick map) c Hnot) as (-> & -> & ->).
    split; [done|]. split; [done|]. eexists. split; [reflexivity|].
    apply Forall_replicate. reflexivity.
  - intros _. split; [done|]. split; [done|].
    exists []. by rewrite app_nil_r.
Qed.

Lemma clicks_idle evts c :
  villageClickEvent ∉ listeners c →
  mapRef (foldl (singleclick_event E) c evts) = mapRef c
  ∧ pending (foldl (singleclick_event E) c evts) = pending c
  ∧ ∃ es, effects (foldl (singleclick_event E) c evts) = effects c ++ es
          ∧ Forall (λ e, identify_effect e = false) es.
Proof.
  revert c. induction evts as [|evt evts IH]; intros c Hnot.
  - split; [done|]. split; [done|]. exists []. by rewrite app_nil_r.
  - cbn [foldl].
    destruct (click_idle evt c Hnot) as (Hm & Hp & es1 & He1 & Hes1).
    destruct (IH (singleclick_event E c evt)) as (-> & -> & es2 & -> & Hes2).
    { unfold listeners in *. by rewrite Hm. }
    rewrite Hm, Hp, He1. split; [done|]. split; [done|].
    exists (es1 ++ es2). rewrite app_assoc. split; [done|].
    by apply Forall_app.
Qed.

Lemma remove_listener_NoDup k ks : NoDup ks → k ∉ remove_listener k ks.
Proof.
  induction 1 as [|k' ks Hk' Hnd IH]; cbn; [apply not_elem_of_nil|].
  case_bool_decide as Hk; [by subst|].
  apply not_elem_of_cons. split; [done|exact IH].
Qed.

Lemma on_spec k map :
  NoDup (singleclick map) →
  NoDup (singleclick (on k map)) ∧ k ∈ singleclick (on k map)
  ∧ layers (on k map) = layers map.
Proof.
  intros Hnd. unfold on. case_bool_decide as Hk; [done|]. cbn.
  split; [|split; [|done]].
  - apply NoDup_app. split; [done|]. split; [|apply NoDup_singleton].
    intros x Hx ->%list_elem_of_singleton. done.
  - apply elem_of_app. right. apply list_elem_of_here.
Qed.

(** C4: on a map whose listeners are registered once each, arm, click, and
    let the call issued by that click settle with any outcome.  The click
    sent the point query, the outcome was reported, and the listener is no
    longer installed; after that, any number of clicks without re-arming
    leave it uninstalled, put no call in flight, and add nothing to what the
    host observes but feedback animations: no point selected, no warning, no
    error, no point query. *)
Theorem identify_single_shot c map evt outcome evts :
  mapRef c = Some map → NoDup (singleclick map) →
  let c2 := singleclick_event E (addIdentifyPointMode c) evt in
  let c3 := villageClickEvent_settled P (length (pending c)) outcome c2 in
  let c4 := foldl (singleclick_event E) c3 evts in
  (∃ es, effects c2 = effects c ++ es ∧ CallGetSDTV (wktPoint E evt) ∈ es)
  ∧ effects c3 = effects c2 ++ outcome_effects P outcome
  ∧ (villageClickEvent ∉ listeners c3)
  ∧ (villageClickEvent ∉ listeners c4)
  ∧ pending c4 = pending c3
  ∧ ∃ es, effects c4 = effects c3 ++ es
          ∧ Forall (λ e, identify_effect e = false) es.
Proof.
  intros Hmap Hnd c2 c3 c4.
  destruct (on_spec villageClickEvent map Hnd) as (Hnd1 & Hin1 & _).
  assert (mapRef (addIdentifyPointMode c)
          = Some (on villageClickEvent map)) as Hmap1
    by (unfold addIdentifyPointMode; by rewrite Hmap).
  destruct (click_armed evt (addIdentifyPointMode c) _ Hmap1 Hnd1 Hin1)
    as (Hm2 & Hp2 & es & He2 & Hes).
  fold c2 in Hm2, Hp2, He2.
  assert (pending (addIdentifyPointMode c) = pending c
          ∧ effects (addIdentifyPointMode c) = effects c) as [Hp1 He1]
    by (unfold addIdentifyPointMode; by rewrite Hmap).
  rewrite Hp1 in Hp2. rewrite He1 in He2. rewrite Hmap1 in Hm2.
  assert (effects c3 = effects c2 ++ outcome_effects P outcome
          ∧ villageClickEvent ∉ listeners c3) as [He3 Hl3].
  { unfold c3, villageClickEvent_settled.
    rewrite Hp2, lookup_app_r, Nat.sub_diag by done. cbn.
    rewrite Hm2. cbn. split; [done|].
    by apply remove_listener_NoDup. }
  destruct (clicks_idle evts c3 Hl3) as (Hm4 & Hp4 & es4 & He4 & Hes4).
  fold c4 in Hm4, Hp4, He4.
  split; [by exists es|]. split; [done|]. split; [done|].
  split; [unfold listeners in *; by rewrite Hm4|].
  split; [done|]. by exists es4.
Qed.

End IdentifyInteraction.

Lemma identify_single_shot_witness :
  let E := demo_engine in
  let P := demo_props in
  let c := mount demo_groups in
  let c2 := singleclick_event E (addIdentifyPointMode c) (3, 4)%Q in
  let c3 := villageClickEvent_settled P 0 (Resolved (Some [42])) c2 in
  let c4 := foldl (singleclick_event E) c3 [(5, 6)%Q; (7, 8)%Q] in
  (∃ es, effects c2 = effects c ++ es
         ∧ CallGetSDTV (wktPoint E (3, 4)%Q) ∈ es)
  ∧ effects c3 = effects c2 ++ [PointSelected 42]
  ∧ (villageClickEvent ∉ listeners c3)
  ∧ (villageClickEvent ∉ listeners c4)
  ∧ pending c4 = pending c3
  ∧ ∃ es, effects c4 = effects c3 ++ es
          ∧ Forall (λ e, identify_effect e = false) es.
Proof.
  intros E P c.
  refine (identify_single_shot E P c
            {| layers := demo_groups; singleclick := [bound] |}
            (3, 4)%Q (Resolved (Some [42])) [(5, 6)%Q; (7, 8)%Q] _ _).
  - reflexivity.
  - cbn. apply NoDup_singleton.
Defined.

(** The whole trace of one identification and a later click. *)
Example identify_found_then_click :
  let c := mount demo_groups in
  let c3 := villageClickEvent_settled demo_props 0 (Resolved (Some [42]))
              (singleclick_event demo_engine (addIdentifyPointMode c)
                 (3, 4)%Q) in
  effects (singleclick_event demo_engine c3 (5, 6)%Q)
  = [AnimateFeature (3, 4)%Q; AnimateFeature (3, 4)%Q;
     CallGetSDTV "POINT (3 4)"; PointSelected 42;
     AnimateFeature (5, 6)%Q]
  ∧ listeners c3 = [bound].
Proof. cbv zeta. split; vm_compute; reflexivity. Qed.

(** An empty answer: the warning goes out, no point is selected, and the
    listener is removed. *)
Example identify_not_found :
  let c3 := villageClickEvent_settled demo_props 0 (Resolved (Some []))
              (singleclick_event demo_engine
                 (addIdentifyPointMode (mount demo_groups)) (3, 4)%Q) in
  effects c3
  = [AnimateFeature (3, 4)%Q; AnimateFeature (3, 4)%Q;
     CallGetSDTV "POINT (3 4)";
     NotifyWarn "No data found for the selected point."]
  ∧ listeners c3 = [bound].
Proof. cbv zeta. split; vm_compute; reflexivity. Qed.

(** A click that arrives before the first call settles still finds the
    listener installed, and sends a second query. *)
Example identify_click_before_settle :
  let c2 := singleclick_event demo_engine
              (singleclick_event demo_engine
                 (addIdentifyPointMode (mount demo_groups)) (3, 4)%Q)
              (5, 6)%Q in
  pending c2 = ["POINT (3 4)"; "POINT (5 6)"].
Proof. vm_compute. reflexivity. Qed.

(** ** The assumptions are invariants *)

Section Invariants.

Context (E : Engine) (P : Props).

(** ol-ext's [removeFilter] only ever takes filters away. *)
Hypothesis removeFilter_sub :
  ∀ old fs f, f ∈ removeFilter E old fs → f ∈ fs.

Lemma invariant_frame c c' :
  layers <$> mapRef c' = layers <$> mapRef c →
  next_ref c ≤ next_ref c' → NoDup (listeners c') →
  invariant c → invariant c'.
Proof.
  intros Hls Hnext Hnd (Hu & Hrefs & _). split; [|split; [|done]].
  - intros map' Hmap'. rewrite Hmap' in Hls.
    destruct (mapRef c) as [map|] eqn:Hmap; [|done].
    injection Hls as ->. by apply Hu.
  - intros map' lyr f Hmap' Hin Hf. rewrite Hmap' in Hls.
    destruct (mapRef c) as [map|] eqn:Hmap; [|done].
    injection Hls as Hls. rewrite Hls in Hin.
    specialize (Hrefs map lyr f Hmap Hin Hf). lia.
Qed.

Lemma invariant_emit es c : invariant c → invariant (emit es c).
Proof.
  intros Hinv. eapply invariant_frame; [| | |exact Hinv]; [done|done|].
  by destruct Hinv as (_ & _ & Hnd).
Qed.

Lemma remove_listener_sub k ks x : x ∈ remove_listener k ks → x ∈ ks.
Proof.
  induction ks as [|k' ks IH]; cbn; [done|].
  case_bool_decide; [by right|].
  intros [->|Hx%IH]%elem_of_cons; [left|by right].
Qed.

Lemma remove_listener_keeps_NoDup k ks :
  NoDup ks → NoDup (remove_listener k ks).
Proof.
  induction 1 as [|k' ks Hk' Hnd IH]; cbn; [constructor|].
  case_bool_decide; [done|]. constructor; [|done].
  intros Hin%remove_listener_sub. done.
Qed.

Lemma run_listeners_frame evt ks c :
  mapRef (foldl (run_listener E evt) c ks) = mapRef c
  ∧ next_ref (foldl (run_listener E evt) c ks) = next_ref c.
Proof.
  revert c. induction ks as [|k ks IH]; intros c; [done|]. cbn [foldl].
  destruct (IH (run_listener E evt c k)) as [-> ->].
  destruct k; cbn; [done|]. unfold villageClickEvent_call.
  destruct (mapRef c) eqn:Hmap; cbn; by rewrite ?Hmap.
Qed.

Lemma cluster_layers_remove_first_le (p : Layer → bool) ls :
  length (cluster_layers (remove_first p ls)) ≤ length (cluster_layers ls).
Proof.
  unfold cluster_layers. induction ls as [|l ls IH]; cbn; [done|].
  destruct (p l); cbn; destruct (named "cluster-layer" l); cbn; lia.
Qed.

Lemma named_masked nm old crop lyr :
  named nm (apply_mask E P old crop lyr) = named nm lyr.
Proof. unfold named. by rewrite apply_mask_name. Qed.

Lemma cluster_layers_masked old crop ls :
  length (cluster_layers (apply_mask E P old crop <$> ls))
  = length (cluster_layers ls).
Proof.
  unfold cluster_layers. induction ls as [|l ls IH]; [done|].
  rewrite fmap_cons. simpl List.filter. rewrite named_masked.
  destruct (named "cluster-layer" l); simpl; by rewrite IH.
Qed.

Lemma retired_cluster_layers_le c map :
  length (cluster_layers (retired_layers c map))
  ≤ length (cluster_layers (layers map)).
Proof.
  unfold retired_layers, removeLayer.
  destruct (clippedBoundary c); [apply cluster_layers_remove_first_le|done].
Qed.

Lemma clip_invariant body outcome c :
  invariant c → invariant (clip E P body outcome c).2.
Proof using removeFilter_sub.
  intros (Hu & Hrefs & Hnd). split; [|split].
  - destruct (mapRef c) as [map|] eqn:Hmap;
      [|unfold clip; by rewrite Hmap].
    pose proof (retired_cluster_layers_le c map) as Hle.
    specialize (Hu map Hmap). unfold clip. rewrite Hmap.
    destruct outcome as [res|e];
      [destruct (readFeatures E (geojson_text res)) as [e|gs];
       [|destruct (last_coordinates gs) as [coords|]]|];
      intros map' [= <-]; cbn [layers set_layers];
      rewrite ?cluster_layers_masked; unfold addLayer;
      rewrite ?cluster_layers_app; cbn; rewrite ?app_nil_r; lia.
  - by apply clip_refs_allocated.
  - unfold listeners in Hnd. unfold listeners, clip.
    destruct (mapRef c) as [map|] eqn:Hmap; [|cbn; by rewrite Hmap].
    destruct outcome as [res|e];
      [destruct (readFeatures E (geojson_text res)) as [e|gs];
       [|destruct (last_coordinates gs) as [coords|]]|]; exact Hnd.
Qed.

Lemma refresh_invariant outcome c :
  invariant c → invariant (refresh E P outcome c).
Proof.
  intros (Hu & Hrefs & Hnd). split; [by apply refresh_overlay_unique|].
  destruct outcome as [resp|e]; [|by split].
  destruct (mapRef c) as [map|] eqn:Hmap.
  - assert (∀ lyr f,
              lyr ∈ remove_first (named "cluster-layer") (layers map) →
              f ∈ filters lyr → filter_ref f < next_ref c) as Hold.
    { intros lyr f Hin. apply (Hrefs map lyr f Hmap).
      by apply (remove_first_subseteq (named "cluster-layer")). }
    unfold listeners in Hnd. rewrite Hmap in Hnd.
    destruct resp as [[|it items]|].
    + rewrite (refresh_resolved_empty E P _ c map) by auto.
      split; [|exact Hnd]. intros map' lyr f [= <-]. apply Hold.
    + rewrite (refresh_resolved_nonempty E P _ c map) by done.
      split; [|exact Hnd]. intros map' lyr f [= <-].
      cbn [layers set_layers next_ref overlay_state].
      destruct (isBirthCertificateLayerVisible c).
      * intros [Hin|Hin%list_elem_of_singleton]%elem_of_app Hf.
        -- specialize (Hold lyr f Hin Hf). lia.
        -- subst lyr. by apply elem_of_nil in Hf.
      * intros Hin Hf. specialize (Hold lyr f Hin Hf). lia.
    + rewrite (refresh_resolved_empty E P _ c map) by auto.
      split; [|exact Hnd]. intros map' lyr f [= <-]. apply Hold.
  - assert (refresh E P (Resolved resp) c
            = setSummary (match resp with Some items => items | None => [] end)
                (emit [CallGetClusterCount] c)) as ->.
    { unfold refresh, refreshClusterSummary, clusterLayerEffect.
      cbn. by rewrite Hmap. }
    split; [|exact Hnd]. intros map'. cbn. by rewrite Hmap.
Qed.

Lemma step_invariant c a : invariant c → invariant (step E P c a).
Proof using removeFilter_sub.
  intros Hinv. destruct a as [outcome|body outcome| | |evt|i outcome]; cbn.
  - by apply refresh_invariant.
  - unfold initialClipEffect.
    pose proof (clip_invariant body outcome c Hinv) as Hclip.
    destruct (clip E P body outcome c) as [[|e] c']; [exact Hclip|].
    by apply invariant_emit.
  - revert Hinv. unfold buildLegendsForVisibleWmsLayers.
    destruct (mapRef c) as [map|] eqn:Hmap; [|done].
    intros Hinv. eapply invariant_frame; [| | |exact Hinv]; cbn.
    + by rewrite Hmap.
    + done.
    + destruct Hinv as (_ & _ & Hnd). unfold listeners in *.
      cbn. by rewrite Hmap in *.
  - revert Hinv. unfold addIdentifyPointMode.
    destruct (mapRef c) as [map|] eqn:Hmap; [|done].
    intros Hinv. eapply invariant_frame; [| | |exact Hinv]; cbn.
    + rewrite Hmap. cbn. f_equal. unfold on. by case_bool_decide.
    + done.
    + destruct Hinv as (_ & _ & Hnd). unfold listeners in Hnd.
      rewrite Hmap in Hnd. apply (on_spec villageClickEvent map Hnd).
  - unfold singleclick_event. destruct (mapRef c) as [map|] eqn:Hmap; [|done].
    destruct (run_listeners_frame evt (singleclick map) c) as [Hm Hn].
    eapply invariant_frame; [| | |exact Hinv].
    + by rewrite Hm.
    + by rewrite Hn.
    + destruct Hinv as (_ & _ & Hnd). unfold listeners in *. by rewrite Hm.
  - unfold villageClickEvent_settled.
    destruct (pending c !! i); [|done]. cbn.
    destruct (mapRef c) as [map|] eqn:Hmap.
    + eapply invariant_frame; [| | |exact Hinv]; cbn.
      * by rewrite Hmap.
      * done.
      * destruct Hinv as (_ & _ & Hnd). unfold listeners in Hnd.
        rewrite Hmap in Hnd. by apply remove_listener_keeps_NoDup.
    + eapply invariant_frame; [| | |exact Hinv]; cbn.
      * by rewrite Hmap.
      * done.
      * destruct Hinv as (_ & _ & Hnd). unfold listeners in *.
        cbn. by rewrite Hmap in *.
Qed.

Lemma mount_invariant groups :
  cluster_layers groups = [] → invariant (mount groups).
Proof.
  intros Hgroups. split; [by apply mount_overlay_unique|].
  split; [apply mount_refs_allocated|]. cbn. apply NoDup_singleton.
Qed.

(** Every state the component reaches from a mount whose layers do not use
    the overlay's name satisfies the invariant. *)
Lemma reachable_invariant groups c :
  cluster_layers groups = [] → reachable E P groups c → invariant c.
Proof using removeFilter_sub.
  intros Hgroups. induction 1 as [|c a _ IH].
  - by apply mount_invariant.
  - by apply step_invariant.
Qed.

End Invariants.

(** * Further properties *)

(** ** The style cache *)

(** On a reachable module a styled count gets the style built for it. *)
Lemma makeClusterStyle_built M feature (N : Z) :
  module_reachable M → first_count feature = Some N → N ≠ 0%Z →
  ∃ ref, (makeClusterStyle feature M).1 = Some (new_cluster_style ref N).
Proof.
  intros HM Hf Hne. rewrite (makeClusterStyle_returns _ _ _ Hf Hne).
  destruct (styleCache M !! pretty N) as [cached|] eqn:Hhit; cbn.
  - destruct (module_reachable_sound _ HM _ _ Hhit) as (n & _ & Hkey & Hst).
    apply (inj pretty) in Hkey as <-. exists (style_ref cached).
    by rewrite <- Hst.
  - by eexists.
Qed.




(** X3: a negative count is not rejected: it is styled as the smallest
    marker, radius 8 and green, labelled with the count and its sign. *)
Theorem makeClusterStyle_negative M feature (N : Z) :
  module_reachable M → first_count feature = Some N → (N < 0)%Z →
  ∃ style,
    (makeClusterStyle feature M).1 = Some style
    ∧ (radius (image style) == 8)%Q
    ∧ circle_fill (image style) = "rgba(0,128,0,1)"
    ∧ text (text_style style) = "-" +:+ pretty (Z.to_N (- N)).
Proof.
  intros HM Hf HN.
  destruct (makeClusterStyle_built M feature N HM Hf) as [ref Hret]; [lia|].
  exists (new_cluster_style ref N). split; [exact Hret|]. cbn.
  split; [apply cluster_radius_ranges; lia|]. split.
  - unfold cluster_color.
    destruct (Z.ltb_spec 25 N); [lia|]. destruct (Z.ltb_spec 8 N); [lia|].
    reflexivity.
  - destruct N as [|p|p]; [lia|lia|]. reflexivity.
Qed.

Lemma makeClusterStyle_negative_witness :
  ∃ style,
    (makeClusterStyle (cluster_of (-3)) module_init).1 = Some style
    ∧ (radius (image style) == 8)%Q
    ∧ circle_fill (image style) = "rgba(0,128,0,1)"
    ∧ text (text_style style) = "-3".
Proof.
  apply (makeClusterStyle_negative module_init (cluster_of (-3)) (-3)).
  - apply reach_init.
  - reflexivity.
  - lia.
Defined.

Lemma makeClusterStyle_allocated feature M :
  cache_allocated M → cache_allocated (makeClusterStyle feature M).2.
Proof.
  intros (Hsize & Hlt & Hinj). unfold makeClusterStyle.
  destruct (first_count feature) as [size|]; [|done].
  destruct (size =? 0)%Z; [done|].
  destruct (styleCache M !! pretty size) eqn:Hhit; [done|].
  split; [|split]; cbn.
  - rewrite map_size_insert_None by done. by rewrite Hsize.
  - intros key style. rewrite lookup_insert. case_decide.
    + intros [= <-]. cbn. lia.
    + intros Hk. specialize (Hlt key style Hk). lia.
  - intros key1 key2 style1 style2. rewrite !lookup_insert.
    repeat case_decide; subst.
    + done.
    + intros [= <-] Hk2 Href. cbn in Href.
      specialize (Hlt key2 style2 Hk2). lia.
    + intros Hk1 [= <-] Href. cbn in Href.
      specialize (Hlt key1 style1 Hk1). lia.
    + apply Hinj.
Qed.

(** X4: in every state of the module the cache holds exactly as many styles
    as were ever allocated, every cached style was built for the non-zero
    count its key prints, and two keys never share a style object. *)
Theorem module_cache_allocated M :
  module_reachable M →
  cache_allocated M
  ∧ ∀ key style, styleCache M !! key = Some style →
      ∃ n : Z, n ≠ 0%Z ∧ key = pretty n
               ∧ style = new_cluster_style (style_ref style) n.
Proof.
  intros HM. split; [|by apply module_reachable_sound].
  induction HM as [|feature M _ IH].
  - split; [done|]. split; intros *; cbn; by rewrite lookup_empty.
  - by apply makeClusterStyle_allocated.
Qed.

Lemma module_cache_allocated_witness :
  let M := (makeClusterStyle (cluster_of 5)
              (makeClusterStyle (cluster_of 30)
                 (makeClusterStyle (cluster_of 5) module_init).2).2).2 in
  cache_allocated M
  ∧ ∀ key style, styleCache M !! key = Some style →
      ∃ n : Z, n ≠ 0%Z ∧ key = pretty n
               ∧ style = new_cluster_style (style_ref style) n.
Proof.
  intros M. apply (module_cache_allocated M).
  do 3 apply reach_call. apply reach_init.
Defined.

(** Three calls on two distinct counts leave two styles in the cache. *)
Example cache_after_three_calls :
  let M := (makeClusterStyle (cluster_of 5)
              (makeClusterStyle (cluster_of 30)
                 (makeClusterStyle (cluster_of 5) module_init).2).2).2 in
  style_next M = 2
  ∧ (style_ref <$> styleCache M !! "5") = Some 0
  ∧ (style_ref <$> styleCache M !! "30") = Some 1.
Proof. cbv zeta. repeat split; vm_compute; reflexivity. Qed.

(** ** More on the clip pipeline *)

Section ClipFurther.

Context (E : Engine) (P : Props).

Lemma last_coordinates_last gs g : last_coordinates (gs ++ [g]) = g.
Proof. unfold last_coordinates. by rewrite foldl_app. Qed.

Lemma boundary_features_length ref gs :
  length (boundary_features ref gs) = length gs.
Proof.
  revert ref. induction gs as [|g gs IH]; intros ref; cbn;
    [done | by rewrite IH].
Qed.

Lemma boundary_features_geometry ref gs :
  geometry <$> boundary_features ref gs
  = (λ g : option MultiCoords, MultiPolygon <$> g) <$> gs.
Proof.
  revert ref. induction gs as [|g gs IH]; intros ref; cbn;
    [done | by rewrite IH].
Qed.

(** X5: when the boundary has several features, the outline layer shows all
    of them, but the mask is cut from the last feature alone: the loop over
    the features overwrites the coordinates it collects. *)
Theorem clip_mask_from_last_feature body res c map gs cs :
  mapRef c = Some map →
  readFeatures E (geojson_text res) = inr (gs ++ [Some cs]) →
  (clip E P body (Resolved res) c).1 = Fulfilled
  ∧ (crop_feature <$> navigationCropFilter (clip E P body (Resolved res) c).2)
    = Some (MultiPolygon cs)
  ∧ ((λ l, geometry <$> source_features l)
       <$> clippedBoundary (clip E P body (Resolved res) c).2)
    = Some (((λ g : option MultiCoords, MultiPolygon <$> g) <$> gs)
            ++ [Some (MultiPolygon cs)]).
Proof.
  intros Hmap Hread. unfold clip.
  rewrite Hmap, Hread, last_coordinates_last. cbn.
  split; [done|]. split; [done|]. unfold source_features. cbn.
  by rewrite boundary_features_geometry, fmap_app.
Qed.







End ClipFurther.

Lemma clip_mask_from_last_feature_witness :
  let E := {| toMercator := toMercator demo_engine;
              toLonLat := toLonLat demo_engine;
              number_text := number_text demo_engine;
              readFeatures := λ _, inr [Some []; None; Some square];
              no_coordinates := no_coordinates demo_engine;
              removeFilter := removeFilter demo_engine;
              createObjectURL := createObjectURL demo_engine |} in
  let r := clip E demo_props demo_body (Resolved None) (mount demo_groups) in
  r.1 = Fulfilled
  ∧ (crop_feature <$> navigationCropFilter r.2) = Some (MultiPolygon square)
  ∧ ((λ l, geometry <$> source_features l) <$> clippedBoundary r.2)
    = Some [Some (MultiPolygon []); None; Some (MultiPolygon square)].
Proof.
  intros E r.
  refine (clip_mask_from_last_feature E demo_props demo_body None
            (mount demo_groups)
            {| layers := demo_groups; singleclick := [bound] |}
            [Some []; None] square _ _);
    reflexivity.
Defined.


(** ** Clips in sequence *)

Section ClipSequence.

Context (E : Engine) (P : Props).

Lemma remove_first_snoc (p : Layer → bool) ls x :
  (∀ y, y ∈ ls → p y = false) → p x = true →
  remove_first p (ls ++ [x]) = ls.
Proof.
  intros Hls Hx. induction ls as [|y ls IH]; cbn; [by rewrite Hx|].
  rewrite (Hls y) by left. f_equal. apply IH. intros z Hz. apply Hls.
  by right.
Qed.

Lemma apply_mask_ref old crop lyr :
  layer_ref (apply_mask E P old crop lyr) = layer_ref lyr.
Proof. unfold apply_mask. by destruct (exempt P lyr). Qed.

(** The second clip retires exactly the outline the first one added. *)
Lemma retired_after_clip c map old crop gs next es :
  mapRef c = Some map → layer_refs_allocated c →
  retired_layers
    (clip_state
       (apply_mask E P old crop
        <$> addLayer (new_boundary_layer (next_ref c) gs)
              (retired_layers c map))
       (Some (new_boundary_layer (next_ref c) gs)) (Some crop) es next map c)
    (set_layers
       (apply_mask E P old crop
        <$> addLayer (new_boundary_layer (next_ref c) gs)
              (retired_layers c map)) map)
  = apply_mask E P old crop <$> retired_layers c map.
Proof.
  intros Hmap Hrefs. unfold retired_layers at 1.
  cbn [clippedBoundary clip_state layers set_layers].
  unfold removeLayer, addLayer. rewrite fmap_app. cbn [fmap list_fmap].
  apply remove_first_snoc.
  - intros y (l0 & -> & Hin)%list_elem_of_fmap.
    rewrite apply_mask_ref. cbn. apply Nat.eqb_neq.
    apply (retired_layers_subseteq c map) in Hin.
    specialize (Hrefs map l0 Hmap Hin). lia.
  - rewrite apply_mask_ref. apply Nat.eqb_refl.
Qed.

(** X7: a clip that completes and a re-clip that fails, because the fetch
    rejects or the reader throws.  The failed call removes the outline of the
    first clip from the map and clears its source, and nothing else: every
    other layer stays, the mask of the first clip is still recorded and still
    carried by every layer the exemption test does not skip, and the failure
    text goes to the notifier. *)
Theorem clip_failed_reclip body1 outcome1 body2 outcome2 e c c1 map :
  mapRef c = Some map → layer_refs_allocated c →
  clip E P body1 outcome1 c = (Fulfilled, c1) →
  outcome2 = Rejected e
  ∨ (∃ res, outcome2 = Resolved res
            ∧ readFeatures E (geojson_text res) = inl e) →
  ∃ crop out map1 map2 shown,
    navigationCropFilter c1 = Some crop ∧ clippedBoundary c1 = Some out
    ∧ mapRef c1 = Some map1
    ∧ mapRef (initialClipEffect E P (Some body2) outcome2 c1) = Some map2
    ∧ layers map1 = layers map2 ++ [shown]
    ∧ layer_ref shown = layer_ref out
    ∧ navigationCropFilter (initialClipEffect E P (Some body2) outcome2 c1)
      = Some crop
    ∧ (∀ lyr, lyr ∈ layers map2 → ¬ listed P lyr → carries crop lyr)
    ∧ (source_features
         <$> clippedBoundary (initialClipEffect E P (Some body2) outcome2 c1))
      = Some []
    ∧ effects (initialClipEffect E P (Some body2) outcome2 c1)
      = effects c1 ++ CallFetchBoundary body2
                      :: notify_error P (error_text e).
Proof.
  intros Hmap Hrefs Hclip Hfail.
  destruct (clip_fulfilled E P body1 outcome1 c c1 map Hmap Hclip)
    as (res1 & gs & coords & -> & Hread & Hlast & ->).
  set (crop := new_crop (S (next_ref c + length gs)) coords).
  set (out := new_boundary_layer (next_ref c) gs).
  set (old := navigationCropFilter c).
  assert (initialClipEffect E P (Some body2) outcome2
            (clip_state (apply_mask E P old crop
                         <$> addLayer out (retired_layers c map))
               (Some out) (Some crop) [CallFetchBoundary body1]
               (S (S (next_ref c + length gs))) map c)
          = emit (notify_error P (error_text e))
              (clip_state (apply_mask E P old crop <$> retired_layers c map)
                 (Some (clear_source out)) (Some crop)
                 [CallFetchBoundary body2] (S (S (next_ref c + length gs)))
                 (set_layers
                    (apply_mask E P old crop
                     <$> addLayer out (retired_layers c map)) map)
                 (clip_state (apply_mask E P old crop
                              <$> addLayer out (retired_layers c map))
                    (Some out) (Some crop) [CallFetchBoundary body1]
                    (S (S (next_ref c + length gs))) map c))) as ->.
  { unfold initialClipEffect, clip. cbn [mapRef clip_state].
    rewrite (retired_after_clip c map old crop gs _ _ Hmap Hrefs).
    destruct Hfail as [->|(res & -> & ->)]; reflexivity. }
  eexists crop, out, _, _, (apply_mask E P old crop out).
  split; [reflexivity|]. split; [reflexivity|]. split; [reflexivity|].
  split; [reflexivity|]. cbn [layers set_layers].
  split; [unfold addLayer; by rewrite fmap_app|].
  split; [apply apply_mask_ref|]. split; [reflexivity|]. split.
  - intros lyr (l0 & -> & Hin)%list_elem_of_fmap Hnot.
    apply apply_mask_carries. apply exempt_false_iff.
    rewrite <- exempt_iff, apply_mask_exempt in Hnot.
    by rewrite <- exempt_iff.
  - split; [reflexivity|]. cbn. by rewrite <- app_assoc.
Qed.

(** X8: two clips that complete one after the other.  The map ends with as
    many layers as after the first clip: the outline of the first is gone and
    the outline of the second is there.  No layer carries the first mask any
    more; the second mask is recorded, carried by every layer the exemption
    test does not skip, and by no layer it skips. *)
Theorem clip_twice body1 outcome1 body2 outcome2 c c1 c2 map :
  mapRef c = Some map → layer_refs_allocated c → refs_allocated c →
  removes_given E →
  clip E P body1 outcome1 c = (Fulfilled, c1) →
  clip E P body2 outcome2 c1 = (Fulfilled, c2) →
  ∃ crop1 crop2 out1 out2 map1 map2,
    navigationCropFilter c1 = Some crop1 ∧ clippedBoundary c1 = Some out1
    ∧ mapRef c1 = Some map1
    ∧ navigationCropFilter c2 = Some crop2 ∧ clippedBoundary c2 = Some out2
    ∧ mapRef c2 = Some map2
    ∧ length (layers map2) = length (layers map1)
    ∧ (layer_ref out1 ∉ layer_ref <$> layers map2)
    ∧ (layer_ref out2 ∈ layer_ref <$> layers map2)
    ∧ ∀ lyr, lyr ∈ layers map2 →
        ¬ carries crop1 lyr
        ∧ (¬ listed P lyr → carries crop2 lyr)
        ∧ (listed P lyr → ¬ carries crop2 lyr).
Proof.
  intros Hmap Hlrefs Hfrefs Hremove Hclip1 Hclip2.
  destruct (clip_fulfilled E P body1 outcome1 c c1 map Hmap Hclip1)
    as (res1 & gs1 & coords1 & -> & Hread1 & Hlast1 & ->).
  set (old := navigationCropFilter c) in *.
  set (n1 := next_ref c + length gs1) in *.
  set (crop1 := new_crop (S n1) coords1) in *.
  set (out1 := new_boundary_layer (next_ref c) gs1) in *.
  set (ls1 := apply_mask E P old crop1
              <$> addLayer out1 (retired_layers c map)) in *.
  destruct (clip_fulfilled E P body2 outcome2
              (clip_state ls1 (Some out1) (Some crop1)
                 [CallFetchBoundary body1] (S (S n1)) map c)
              c2 (set_layers ls1 map) eq_refl Hclip2)
    as (res2 & gs2 & coords2 & -> & Hread2 & Hlast2 & ->).
  assert (retired_layers
            (clip_state ls1 (Some out1) (Some crop1)
               [CallFetchBoundary body1] (S (S n1)) map c)
            (set_layers ls1 map)
          = apply_mask E P old crop1 <$> retired_layers c map) as Hret
    by (by apply retired_after_clip).
  rewrite Hret. cbn [next_ref clip_state navigationCropFilter].
  set (n2 := S (S n1) + length gs2).
  set (crop2 := new_crop (S n2) coords2).
  set (out2 := new_boundary_layer (S (S n1)) gs2).
  eexists crop1, crop2, out1, out2, (set_layers ls1 map), _.
  do 6 (split; [reflexivity|]). cbn [layers set_layers].
  assert (∀ l0 f, l0 ∈ retired_layers c map → f ∈ filters l0 →
                  filter_ref f < next_ref c) as Hold.
  { intros l0 f Hin. apply (Hfrefs map l0 f Hmap).
    by apply (retired_layers_subseteq c map). }
  split; [|split; [|split]].
  - unfold ls1, addLayer. by rewrite !length_fmap, !length_app, !length_fmap.
  - unfold addLayer. rewrite <- list_fmap_compose, fmap_app.
    intros [(l1 & Href & (l0 & -> & Hin)%list_elem_of_fmap)%list_elem_of_fmap
           |Hin%list_elem_of_singleton]%elem_of_app.
    + cbn in Href. rewrite !apply_mask_ref in Href.
      apply (retired_layers_subseteq c map) in Hin.
      specialize (Hlrefs map l0 Hmap Hin). cbn in Href. lia.
    + cbn in Hin. rewrite apply_mask_ref in Hin. cbn in Hin. lia.
  - apply list_elem_of_fmap. exists (apply_mask E P (Some crop1) crop2 out2).
    split; [by rewrite apply_mask_ref|].
    apply list_elem_of_fmap_2. unfold addLayer. apply elem_of_app. right.
    apply list_elem_of_here.
  - intros lyr (l1 & -> & Hin1)%list_elem_of_fmap.
    rewrite <- exempt_false_iff, <- !exempt_iff, !apply_mask_exempt.
    unfold apply_mask at 1 2 3.
    destruct (exempt P l1) eqn:Hex1.
    + assert (∀ f, f ∈ filters l1 → filter_ref f < next_ref c) as Hl1.
      { apply elem_of_app in Hin1
          as [(l0 & -> & Hin0)%list_elem_of_fmap
             | ->%list_elem_of_singleton].
        - rewrite apply_mask_exempt in Hex1. unfold apply_mask.
          rewrite Hex1. intros f. by apply Hold.
        - cbn. by intros f ?%elem_of_nil. }
      split; [|split; [done|intros _]];
        intros (f & Hf & Hfin)%list_elem_of_fmap;
        specialize (Hl1 f Hfin); cbn in Hf; lia.
    + split; [|split; [intros _|done]]; unfold carries; cbn.
      * rewrite fmap_app. intros [(f & Hf & Hfin)%list_elem_of_fmap
                                 |Hin%list_elem_of_singleton]%elem_of_app.
        -- apply Hremove in Hfin as [_ Hne]. exact (Hne (eq_sym Hf)).
        -- cbn in Hin. lia.
      * rewrite fmap_app. apply elem_of_app. right. apply list_elem_of_here.
Qed.

End ClipSequence.

Lemma demo_removes_given : removes_given demo_engine.
Proof.
  intros f fs g. cbn. rewrite !list_elem_of_In. rewrite List.filter_In.
  rewrite negb_true_iff, Nat.eqb_neq. done.
Qed.

Lemma mount_layer_refs_allocated groups : layer_refs_allocated (mount groups).
Proof.
  intros map lyr [= <-] Hin. cbn in *. unfold fresh_above.
  apply Nat.lt_succ_r, max_list_bound, elem_of_app. left.
  by apply list_elem_of_fmap_2.
Qed.

Lemma clip_failed_reclip_witness :
  let P := demo_props in
  let c1 := (clip demo_engine P demo_body
               (Resolved (Some [{| st_asgeojson := Some square_text |}]))
               (mount demo_groups)).2 in
  let c2 := initialClipEffect demo_engine P (Some demo_body)
              (Rejected unsupported_type) c1 in
  ∃ crop out map1 map2 shown,
    navigationCropFilter c1 = Some crop ∧ clippedBoundary c1 = Some out
    ∧ mapRef c1 = Some map1 ∧ mapRef c2 = Some map2
    ∧ layers map1 = layers map2 ++ [shown]
    ∧ layer_ref shown = layer_ref out
    ∧ navigationCropFilter c2 = Some crop
    ∧ (∀ lyr, lyr ∈ layers map2 → ¬ listed P lyr → carries crop lyr)
    ∧ (source_features <$> clippedBoundary c2) = Some []
    ∧ effects c2
      = effects c1 ++ CallFetchBoundary demo_body
                      :: notify_error P (error_text unsupported_type).
Proof.
  intros P c1 c2.
  refine (clip_failed_reclip demo_engine P demo_body
            (Resolved (Some [{| st_asgeojson := Some square_text |}]))
            demo_body (Rejected unsupported_type) unsupported_type
            (mount demo_groups) c1
            {| layers := demo_groups; singleclick := [bound] |} _ _ _ _).
  - reflexivity.
  - apply mount_layer_refs_allocated.
  - vm_compute. reflexivity.
  - by left.
Defined.

Lemma clip_twice_witness :
  let P := demo_props in
  let square_rows := Resolved (Some [{| st_asgeojson := Some square_text |}]) in
  let c1 := (clip demo_engine P demo_body square_rows (mount demo_groups)).2 in
  let c2 := (clip demo_engine P demo_body square_rows c1).2 in
  ∃ crop1 crop2 out1 out2 map1 map2,
    navigationCropFilter c1 = Some crop1 ∧ clippedBoundary c1 = Some out1
    ∧ mapRef c1 = Some map1
    ∧ navigationCropFilter c2 = Some crop2 ∧ clippedBoundary c2 = Some out2
    ∧ mapRef c2 = Some map2
    ∧ length (layers map2) = length (layers map1)
    ∧ (layer_ref out1 ∉ layer_ref <$> layers map2)
    ∧ (layer_ref out2 ∈ layer_ref <$> layers map2)
    ∧ ∀ lyr, lyr ∈ layers map2 →
        ¬ carries crop1 lyr
        ∧ (¬ listed P lyr → carries crop2 lyr)
        ∧ (listed P lyr → ¬ carries crop2 lyr).
Proof.
  intros P square_rows c1 c2.
  refine (clip_twice demo_engine P demo_body square_rows demo_body square_rows
            (mount demo_groups) c1 c2
            {| layers := demo_groups; singleclick := [bound] |}
            _ _ _ _ _ _).
  - reflexivity.
  - apply mount_layer_refs_allocated.
  - apply mount_refs_allocated.
  - apply demo_removes_given.
  - vm_compute. reflexivity.
  - vm_compute. reflexivity.
Defined.

(** The same request twice: one outline, one mask. *)
Example clip_square_twice :
  let square_rows := Resolved (Some [{| st_asgeojson := Some square_text |}]) in
  let c1 := (clip demo_engine demo_props demo_body square_rows
               (mount demo_groups)).2 in
  let c2 := (clip demo_engine demo_props demo_body square_rows c1).2 in
  ((λ m, (λ l, (name l, filter_ref <$> filters l)) <$> layers m)
     <$> mapRef c2)
  = Some [ (Some "Aerial", []); (Some "Hospital Birth", [10]);
           (None, [10]); (Some "Google", []); (Some "Parcels", [10]);
           (Some "navigation-boundary", [10]) ].
Proof. vm_compute. reflexivity. Qed.

(** ** Refresh, clip and the legends together *)

Section Composition.

Context (E : Engine) (P : Props).

(** X9: the cluster overlay is built without filters and [clip] is the only
    place where the mask is attached.  So when a refresh rebuilds the overlay
    after a clip that completed, the new overlay is on the map without the
    recorded mask, although the exemption test would not skip it, while every
    other layer that is not skipped still carries the mask. *)
Theorem refresh_after_clip_unmasked body outcome items c0 c map0 :
  mapRef c0 = Some map0 →
  clip E P body outcome c0 = (Fulfilled, c) →
  items ≠ [] → isBirthCertificateLayerVisible c = true →
  "cluster-layer" ∉ skipClipLayerNames P →
  ∃ crop overlay map',
    navigationCropFilter (refresh E P (Resolved (Some items)) c) = Some crop
    ∧ clusterLayer (refresh E P (Resolved (Some items)) c) = Some overlay
    ∧ mapRef (refresh E P (Resolved (Some items)) c) = Some map'
    ∧ overlay ∈ layers map'
    ∧ ¬ listed P overlay
    ∧ ¬ carries crop overlay
    ∧ ∀ lyr, lyr ∈ layers map' → lyr ≠ overlay → ¬ listed P lyr →
        carries crop lyr.
Proof.
  intros Hmap0 Hclip Hne Hvis Hskip.
  destruct (clip_fulfilled E P body outcome c0 c map0 Hmap0 Hclip)
    as (res & gs & coords & -> & Hread & Hlast & Hc).
  assert (∃ map, mapRef c = Some map
                 ∧ ∀ lyr, lyr ∈ layers map → ¬ listed P lyr →
                     carries (new_crop (S (next_ref c0 + length gs)) coords)
                       lyr) as (map & Hmap & Hmasked).
  { rewrite Hc. eexists. split; [reflexivity|]. cbn [layers set_layers].
    intros lyr (l0 & -> & Hin)%list_elem_of_fmap Hnot.
    apply apply_mask_carries.
    rewrite <- exempt_false_iff, apply_mask_exempt in Hnot. exact Hnot. }
  assert (navigationCropFilter c
          = Some (new_crop (S (next_ref c0 + length gs)) coords)) as Hcrop
    by (by rewrite Hc).
  rewrite (refresh_resolved_nonempty E P items c map Hmap Hne), Hvis.
  eexists _, _, _. cbn [navigationCropFilter clusterLayer mapRef overlay_state
                        setSummary emit].
  split; [exact Hcrop|]. split; [reflexivity|]. split; [reflexivity|].
  cbn [layers set_layers]. split; [|split; [|split]].
  - unfold addLayer. apply elem_of_app. right. apply list_elem_of_here.
  - intros (nm & [= <-] & _ & Hin). done.
  - unfold carries. cbn. apply not_elem_of_nil.
  - intros lyr [Hin| ->%list_elem_of_singleton]%elem_of_app Hother Hnot;
      [|done].
    apply Hmasked; [|done].
    by apply (remove_first_subseteq (named "cluster-layer")).
Qed.

Lemma legend_entry_not_visible layer :
  getVisible layer = false → legend_entry E P layer = None.
Proof. unfold legend_entry. by intros ->. Qed.

Lemma groupsEffect_unfold outcome c map :
  mapRef c = Some map →
  groupsEffect E P outcome c
  = if isBirthCertificateLayerVisible c
    then refresh E P outcome (buildLegendsForVisibleWmsLayers E P c)
    else buildLegendsForVisibleWmsLayers E P c.
Proof. intros Hmap. unfold groupsEffect. by rewrite Hmap. Qed.

(** X10: the effect on [groups] asks for the aggregates only behind its gate.
    When the first layer named "Hospital Birth" is missing or reports itself
    hidden on both tests, no aggregate fetch goes out, and the stored
    aggregates, the held overlay and the map are left as they were; the
    legends are rebuilt all the same.  A hidden first layer of that name
    closes the gate even if a later layer of the same name is visible. *)
Theorem groupsEffect_gate outcome c map :
  mapRef c = Some map →
  (isBirthCertificateLayerVisible c = false
   ↔ ∀ pre birth post,
       layers map = pre ++ birth :: post →
       name birth = Some "Hospital Birth" →
       (∀ l, l ∈ pre → name l ≠ Some "Hospital Birth") →
       getVisible birth = false ∧ isVisible birth = false)
  ∧ (isBirthCertificateLayerVisible c = false →
     (CallGetClusterCount ∉ drop (length (effects c))
                             (effects (groupsEffect E P outcome c)))
     ∧ summary (groupsEffect E P outcome c) = summary c
     ∧ clusterLayer (groupsEffect E P outcome c) = clusterLayer c
     ∧ mapRef (groupsEffect E P outcome c) = mapRef c
     ∧ legendUrls (groupsEffect E P outcome c)
       = legendUrls (buildLegendsForVisibleWmsLayers E P c)).
Proof.
  intros Hmap. split.
  - unfold isBirthCertificateLayerVisible. rewrite Hmap.
    generalize (layers map) as ls. intros ls.
    induction ls as [|l ls IH]; cbn.
    + split; [|done]. intros _ pre birth post Hls. by destruct pre.
    + destruct (named "Hospital Birth" l) eqn:Hnamed.
      * assert (name l = Some "Hospital Birth") as Hname.
        { unfold named in Hnamed. destruct (name l) as [s|]; [|done].
          by apply String.eqb_eq in Hnamed as ->. }
        rewrite orb_false_r, orb_false_iff. split.
        -- intros Hhidden pre birth post Hls Hb Hpre.
           destruct pre as [|x pre]; cbn in Hls.
           ++ by injection Hls as <- _.
           ++ injection Hls as <- _. by destruct (Hpre l); [left|].
        -- intros H. apply (H [] l ls); [done|done|].
           by intros ? ?%elem_of_nil.
      * assert (name l ≠ Some "Hospital Birth") as Hname.
        { intros Hn. unfold named in Hnamed. rewrite Hn in Hnamed.
          by rewrite String.eqb_refl in Hnamed. }
        rewrite IH. split.
        -- intros H pre birth post Hls Hb Hpre.
           destruct pre as [|x pre]; cbn in Hls.
           ++ injection Hls as <- _. done.
           ++ injection Hls as <- Hls. apply (H pre birth post); [done..|].
              intros y Hy. apply Hpre. by right.
        -- intros H pre birth post Hls Hb Hpre.
           apply (H (l :: pre) birth post); [by rewrite Hls|done|].
           intros y [->|Hy]%elem_of_cons; [done|by apply Hpre].
  - intros Hgate. rewrite (groupsEffect_unfold outcome c map Hmap), Hgate.
    unfold buildLegendsForVisibleWmsLayers. rewrite Hmap. cbn.
    split; [|done]. rewrite drop_app_length.
    by intros (? & ? & _)%list_elem_of_fmap.
Qed.

(** The legend requests depend on the visible layers that have a legend. *)
Lemma legend_requests_remove_first (p : Layer → bool) ls :
  (∀ l, l ∈ ls → p l = true → legend_request P l = None) →
  legend_requests P (List.filter getVisible (remove_first p ls))
  = legend_requests P (List.filter getVisible ls).
Proof.
  induction ls as [|l ls IH]; intros Hp; [done|]. cbn.
  destruct (p l) eqn:Hpl.
  - destruct (getVisible l); [|done]. cbn.
    by rewrite (Hp l) by (done || left).
  - cbn. destruct (getVisible l); cbn; rewrite IH; try done;
      intros x Hx; apply Hp; by right.
Qed.

Lemma legend_requests_snoc ls x :
  legend_request P x = None →
  legend_requests P (List.filter getVisible (ls ++ [x]))
  = legend_requests P (List.filter getVisible ls).
Proof.
  intros Hx. induction ls as [|l ls IH]; cbn.
  - destruct (getVisible x); [|done]. cbn. by rewrite Hx.
  - destruct (getVisible l); cbn; by rewrite IH.
Qed.

Lemma legends_after_refresh outcome c map :
  mapRef c = Some map →
  (∀ l, l ∈ layers map → named "cluster-layer" l = true →
        legend_request P l = None) →
  ∃ map',
    mapRef (refresh E P outcome c) = Some map'
    ∧ legend_requests P (List.filter getVisible (layers map'))
      = legend_requests P (List.filter getVisible (layers map)).
Proof.
  intros Hmap Hnone. destruct outcome as [resp|e].
  - destruct resp as [[|it items]|].
    + rewrite (refresh_resolved_empty E P _ c map) by auto.
      eexists. split; [reflexivity|]. cbn [layers set_layers].
      by apply legend_requests_remove_first.
    + rewrite (refresh_resolved_nonempty E P _ c map) by done.
      eexists. split; [reflexivity|]. cbn [layers set_layers].
      destruct (isBirthCertificateLayerVisible c); unfold addLayer;
        rewrite ?legend_requests_snoc by done;
        by apply legend_requests_remove_first.
    + rewrite (refresh_resolved_empty E P _ c map) by auto.
      eexists. split; [reflexivity|]. cbn [layers set_layers].
      by apply legend_requests_remove_first.
  - exists map. split; [|done]. cbn. exact Hmap.
Qed.

(** X11: a refresh and a legend rebuild do not interfere.  On a map whose
    layers named "cluster-layer" have no legend of their own, running the
    two in either order gives the same map, the same stored aggregates and
    overlay, the same legend list and the same calls, up to the order of the
    calls in the trace. *)
Theorem refresh_legends_commute outcome c map :
  mapRef c = Some map →
  (∀ l, l ∈ layers map → named "cluster-layer" l = true →
        legend_request P l = None) →
  mapRef (buildLegendsForVisibleWmsLayers E P (refresh E P outcome c))
  = mapRef (refresh E P outcome (buildLegendsForVisibleWmsLayers E P c))
  ∧ summary (buildLegendsForVisibleWmsLayers E P (refresh E P outcome c))
    = summary (refresh E P outcome (buildLegendsForVisibleWmsLayers E P c))
  ∧ clusterLayer (buildLegendsForVisibleWmsLayers E P (refresh E P outcome c))
    = clusterLayer
        (refresh E P outcome (buildLegendsForVisibleWmsLayers E P c))
  ∧ legendUrls (buildLegendsForVisibleWmsLayers E P (refresh E P outcome c))
    = legendUrls
        (refresh E P outcome (buildLegendsForVisibleWmsLayers E P c))
  ∧ next_ref (buildLegendsForVisibleWmsLayers E P (refresh E P outcome c))
    = next_ref (refresh E P outcome (buildLegendsForVisibleWmsLayers E P c))
  ∧ effects (buildLegendsForVisibleWmsLayers E P (refresh E P outcome c))
    ≡ₚ effects
         (refresh E P outcome (buildLegendsForVisibleWmsLayers E P c)).
Proof.
  intros Hmap Hnone.
  destruct (legends_after_refresh outcome c map Hmap Hnone)
    as (map' & Hmap' & Hreq).
  assert (buildLegendsForVisibleWmsLayers E P c
          = {| mapRef := mapRef c; summary := summary c;
               clusterLayer := clusterLayer c;
               navigationCropFilter := navigationCropFilter c;
               clippedBoundary := clippedBoundary c;
               legendUrls :=
                 List.filter truthy_string
                   (legend_promise E P
                    <$> legend_requests P
                          (List.filter getVisible (layers map)));
               pending := pending c;
               effects :=
                 effects c
                 ++ (CallBuildLegendBlob
                     <$> legend_requests P
                           (List.filter getVisible (layers map)));
               next_ref := next_ref c |}) as Hlegends
    by (unfold buildLegendsForVisibleWmsLayers; by rewrite Hmap).
  unfold buildLegendsForVisibleWmsLayers at 1 3 5 7 9 11.
  rewrite Hmap', Hreq. cbn [mapRef summary clusterLayer legendUrls next_ref
                            effects].
  rewrite Hlegends. clear Hlegends Hreq.
  destruct outcome as [resp|e].
  - unfold refresh, refreshClusterSummary, clusterLayerEffect in *.
    cbn in *. rewrite Hmap in *. cbn in *.
    destruct (match resp with Some items => items | None => [] end)
      as [|it items]; cbn in *.
    + injection Hmap' as <-. repeat (split; [done|]).
      rewrite <- !app_assoc. apply Permutation_app_head, Permutation_app_comm.
    + unfold isBirthCertificateLayerVisible in *. cbn in *.
      rewrite Hmap in *. injection Hmap' as <-. repeat (split; [done|]).
      rewrite <- !app_assoc. apply Permutation_app_head, Permutation_app_comm.
  - unfold refresh, refreshClusterSummary in *. cbn in *.
    rewrite Hmap in Hmap'. injection Hmap' as <-.
    repeat (split; [done|]). rewrite <- !app_assoc.
    apply Permutation_app_head.
    by rewrite (Permutation_app_comm (CallBuildLegendBlob <$> _)).
Qed.

End Composition.

Lemma refresh_after_clip_unmasked_witness :
  let E := demo_engine in
  let P := demo_props in
  let c := (clip E P demo_body
              (Resolved (Some [{| st_asgeojson := Some square_text |}]))
              (mount demo_groups)).2 in
  ∃ crop overlay map',
    navigationCropFilter (refresh E P (Resolved (Some aggregates_two)) c)
    = Some crop
    ∧ clusterLayer (refresh E P (Resolved (Some aggregates_two)) c)
      = Some overlay
    ∧ mapRef (refresh E P (Resolved (Some aggregates_two)) c) = Some map'
    ∧ overlay ∈ layers map'
    ∧ ¬ listed P overlay
    ∧ ¬ carries crop overlay
    ∧ ∀ lyr, lyr ∈ layers map' → lyr ≠ overlay → ¬ listed P lyr →
        carries crop lyr.
Proof.
  intros E P c.
  refine (refresh_after_clip_unmasked E P demo_body
            (Resolved (Some [{| st_asgeojson := Some square_text |}]))
            aggregates_two (mount demo_groups) c
            {| layers := demo_groups; singleclick := [bound] |} _ _ _ _ _).
  - reflexivity.
  - vm_compute. reflexivity.
  - discriminate.
  - vm_compute. reflexivity.
  - cbn. intros [H|[H|H%elem_of_nil]%elem_of_cons]%elem_of_cons;
      [discriminate H|discriminate H|done].
Defined.

(** After the clip and the refresh, the overlay is the one unmasked layer
    among those the exemption test does not skip. *)
Example overlay_escapes_mask :
  let c := (clip demo_engine demo_props demo_body
              (Resolved (Some [{| st_asgeojson := Some square_text |}]))
              (mount demo_groups)).2 in
  ((λ m, (λ l, (name l, filter_ref <$> filters l)) <$> layers m)
     <$> mapRef (refresh demo_engine demo_props
                   (Resolved (Some aggregates_two)) c))
  = Some [ (Some "Aerial", []); (Some "Hospital Birth", [7]);
           (None, [7]); (Some "Google", []); (Some "Parcels", [7]);
           (Some "navigation-boundary", [7]); (Some "cluster-layer", []) ].
Proof. vm_compute. reflexivity. Qed.

Lemma groupsEffect_gate_witness :
  let E := demo_engine in
  let P := demo_props in
  let outcome := Resolved (Some aggregates_two) in
  let c := mount shadowed_groups in
  (isBirthCertificateLayerVisible c = false
   ↔ ∀ pre birth post,
       shadowed_groups = pre ++ birth :: post →
       name birth = Some "Hospital Birth" →
       (∀ l, l ∈ pre → name l ≠ Some "Hospital Birth") →
       getVisible birth = false ∧ isVisible birth = false)
  ∧ (isBirthCertificateLayerVisible c = false →
     (CallGetClusterCount ∉ drop (length (effects c))
                             (effects (groupsEffect E P outcome c)))
     ∧ summary (groupsEffect E P outcome c) = summary c
     ∧ clusterLayer (groupsEffect E P outcome c) = clusterLayer c
     ∧ mapRef (groupsEffect E P outcome c) = mapRef c
     ∧ legendUrls (groupsEffect E P outcome c)
       = legendUrls (buildLegendsForVisibleWmsLayers E P c)).
Proof.
  intros E P outcome c.
  refine (groupsEffect_gate E P outcome c
            {| layers := shadowed_groups; singleclick := [bound] |} _).
  reflexivity.
Defined.

(** The hidden first layer closes the gate: no aggregate fetch, one legend
    for the visible second layer. *)
Example groupsEffect_shadowed :
  let c := groupsEffect demo_engine demo_props
             (Resolved (Some aggregates_two)) (mount shadowed_groups) in
  effects c
  = [CallBuildLegendBlob
       "https://ok/wms2?REQUEST=GetLegendGraphic&layer=birth2&format=image/png"]
  ∧ clusterLayer c = None.
Proof. cbv zeta. split; vm_compute; reflexivity. Qed.

Lemma refresh_legends_commute_witness :
  let E := demo_engine in
  let P := demo_props in
  let outcome := Resolved (Some aggregates_two) in
  let c := mount demo_groups in
  mapRef (buildLegendsForVisibleWmsLayers E P (refresh E P outcome c))
  = mapRef (refresh E P outcome (buildLegendsForVisibleWmsLayers E P c))
  ∧ summary (buildLegendsForVisibleWmsLayers E P (refresh E P outcome c))
    = summary (refresh E P outcome (buildLegendsForVisibleWmsLayers E P c))
  ∧ clusterLayer (buildLegendsForVisibleWmsLayers E P (refresh E P outcome c))
    = clusterLayer
        (refresh E P outcome (buildLegendsForVisibleWmsLayers E P c))
  ∧ legendUrls (buildLegendsForVisibleWmsLayers E P (refresh E P outcome c))
    = legendUrls
        (refresh E P outcome (buildLegendsForVisibleWmsLayers E P c))
  ∧ next_ref (buildLegendsForVisibleWmsLayers E P (refresh E P outcome c))
    = next_ref (refresh E P outcome (buildLegendsForVisibleWmsLayers E P c))
  ∧ effects (buildLegendsForVisibleWmsLayers E P (refresh E P outcome c))
    ≡ₚ effects
         (refresh E P outcome (buildLegendsForVisibleWmsLayers E P c)).
Proof.
  intros E P outcome c.
  refine (refresh_legends_commute E P outcome c
            {| layers := demo_groups; singleclick := [bound] |} _ _).
  - reflexivity.
  - intros l Hin Hnamed. cbn in Hin.
    repeat (apply elem_of_cons in Hin as [->|Hin]; [discriminate Hnamed|]).
    by apply elem_of_nil in Hin.
Defined.

(** ** More on the identify interaction *)

Section IdentifyFurther.

Context (E : Engine) (P : Props).

(** While the listener is installed, every click sends its query. *)
Lemma clicks_armed evts c map :
  mapRef c = Some map → NoDup (singleclick map) →
  villageClickEvent ∈ singleclick map →
  mapRef (foldl (singleclick_event E) c evts) = mapRef c
  ∧ pending (foldl (singleclick_event E) c evts)
    = pending c ++ (wktPoint E <$> evts).
Proof.
  intros Hmap Hnd Hin. revert c Hmap.
  induction evts as [|evt evts IH]; intros c Hmap; cbn [foldl].
  - by rewrite app_nil_r.
  - destruct (click_armed E evt c map Hmap Hnd Hin) as (Hm & Hp & _).
    destruct (IH (singleclick_event E c evt)) as [-> ->];
      [by rewrite Hm|].
    rewrite Hm, Hp, <- app_assoc. done.
Qed.

(** One settlement: the outcome is reported, the call leaves the queue, and
    the listener is taken off, installed or not. *)
Lemma settle_oldest outcome c map wkt rest :
  mapRef c = Some map → NoDup (singleclick map) →
  pending c = wkt :: rest →
  mapRef (villageClickEvent_settled P 0 outcome c)
  = Some (un villageClickEvent map)
  ∧ pending (villageClickEvent_settled P 0 outcome c) = rest
  ∧ effects (villageClickEvent_settled P 0 outcome c)
    = effects c ++ outcome_effects P outcome
  ∧ NoDup (singleclick (un villageClickEvent map))
  ∧ villageClickEvent ∉ singleclick (un villageClickEvent map).
Proof.
  intros Hmap Hnd Hp. unfold villageClickEvent_settled.
  rewrite Hp. cbn. rewrite Hmap. cbn. rewrite Hp.
  repeat split; [by apply remove_listener_keeps_NoDup|].
  by apply remove_listener_NoDup.
Qed.

Lemma settle_in_order_spec outcomes c map :
  mapRef c = Some map → NoDup (singleclick map) →
  length outcomes ≤ length (pending c) →
  pending (settle_in_order P outcomes c)
  = drop (length outcomes) (pending c)
  ∧ effects (settle_in_order P outcomes c)
    = effects c ++ concat (outcome_effects P <$> outcomes)
  ∧ (outcomes ≠ [] →
     villageClickEvent ∉ listeners (settle_in_order P outcomes c)).
Proof.
  revert c map. induction outcomes as [|o outcomes IH];
    intros c map Hmap Hnd Hlen.
  - cbn. by rewrite app_nil_r.
  - destruct (pending c) as [|wkt rest] eqn:Hp; [cbn in Hlen; lia|].
    destruct (settle_oldest o c map wkt rest Hmap Hnd Hp)
      as (Hm & Hp' & He & Hnd' & Hgone).
    unfold settle_in_order in *. cbn [foldl].
    destruct (IH (villageClickEvent_settled P 0 o c)
                (un villageClickEvent map) Hm Hnd') as (-> & -> & Hlist).
    { rewrite Hp'. cbn in Hlen. lia. }
    rewrite Hp', He. cbn. rewrite <- app_assoc.
    split; [done|]. split; [done|]. intros _.
    destruct outcomes as [|o' outcomes']; [|by apply Hlist].
    cbn. unfold listeners. by rewrite Hm.
Qed.

(** X12: arming guards nothing while a query is in flight.  Every click that
    arrives before the first settlement finds the listener installed and
    sends its own query; each of these queries reports its outcome when it
    settles, also after the first settlement has removed the listener.  So
    one arming followed by k clicks gives k queries and k reports. *)
Theorem identify_overlapping_clicks c map evts outcomes :
  mapRef c = Some map → NoDup (singleclick map) → pending c = [] →
  length outcomes = length evts →
  pending (foldl (singleclick_event E) (addIdentifyPointMode c) evts)
  = wktPoint E <$> evts
  ∧ effects (settle_in_order P outcomes
               (foldl (singleclick_event E) (addIdentifyPointMode c) evts))
    = effects (foldl (singleclick_event E) (addIdentifyPointMode c) evts)
      ++ concat (outcome_effects P <$> outcomes)
  ∧ pending (settle_in_order P outcomes
               (foldl (singleclick_event E) (addIdentifyPointMode c) evts))
    = []
  ∧ (evts ≠ [] →
     villageClickEvent
     ∉ listeners
         (settle_in_order P outcomes
            (foldl (singleclick_event E) (addIdentifyPointMode c) evts))).
Proof.
  intros Hmap Hnd Hp Hlen.
  destruct (on_spec villageClickEvent map Hnd) as (Hnd1 & Hin1 & _).
  assert (mapRef (addIdentifyPointMode c)
          = Some (on villageClickEvent map)
          ∧ pending (addIdentifyPointMode c) = []) as [Hmap1 Hp1]
    by (unfold addIdentifyPointMode; by rewrite Hmap).
  destruct (clicks_armed evts (addIdentifyPointMode c) _ Hmap1 Hnd1 Hin1)
    as [Hm2 Hp2].
  rewrite Hp1 in Hp2. cbn in Hp2. rewrite Hmap1 in Hm2.
  destruct (settle_in_order_spec outcomes _ _ Hm2 Hnd1) as (Hp3 & He3 & Hl3).
  { rewrite Hp2, length_fmap. lia. }
  split; [done|]. split; [done|]. split.
  - rewrite Hp3, Hp2. apply drop_ge. rewrite length_fmap. lia.
  - intros Hne. apply Hl3. intros ->. destruct evts; [done|discriminate].
Qed.

(** X13: on the mounted map the feedback handler is installed too, so a
    click made while the identify mode is armed plays the feedback animation
    twice, once for each listener, and sends one query. *)
Theorem identify_armed_click_feedback c map evt :
  mapRef c = Some map → singleclick map = [bound] →
  effects (singleclick_event E (addIdentifyPointMode c) evt)
  = effects c ++ [AnimateFeature evt; AnimateFeature evt;
                  CallGetSDTV (wktPoint E evt)]
  ∧ listeners (singleclick_event E (addIdentifyPointMode c) evt)
    = [bound; villageClickEvent].
Proof.
  intros Hmap Hks. unfold singleclick_event, addIdentifyPointMode, listeners.
  rewrite Hmap. cbn. unfold on. rewrite Hks.
  rewrite bool_decide_eq_false_2
    by (intros [?|?%elem_of_nil]%elem_of_cons; done).
  cbn. unfold villageClickEvent_call. cbn. by rewrite <- app_assoc.
Qed.

End IdentifyFurther.

Lemma identify_overlapping_clicks_witness :
  let E := demo_engine in
  let P := demo_props in
  let c := mount demo_groups in
  let evts := [(3, 4)%Q; (5, 6)%Q] in
  let outcomes := [Resolved (Some [42]); Resolved (Some [43])] in
  pending (foldl (singleclick_event E) (addIdentifyPointMode c) evts)
  = ["POINT (3 4)"; "POINT (5 6)"]
  ∧ effects (settle_in_order P outcomes
               (foldl (singleclick_event E) (addIdentifyPointMode c) evts))
    = effects (foldl (singleclick_event E) (addIdentifyPointMode c) evts)
      ++ [PointSelected 42; PointSelected 43]
  ∧ pending (settle_in_order P outcomes
               (foldl (singleclick_event E) (addIdentifyPointMode c) evts))
    = []
  ∧ (evts ≠ [] →
     villageClickEvent
     ∉ listeners
         (settle_in_order P outcomes
            (foldl (singleclick_event E) (addIdentifyPointMode c) evts))).
Proof.
  intros E P c evts outcomes.
  refine (identify_overlapping_clicks E P c
            {| layers := demo_groups; singleclick := [bound] |}
            evts outcomes _ _ _ _).
  - reflexivity.
  - cbn. apply NoDup_singleton.
  - reflexivity.
  - reflexivity.
Defined.

Lemma identify_armed_click_feedback_witness :
  let c := mount demo_groups in
  effects (singleclick_event demo_engine (addIdentifyPointMode c) (3, 4)%Q)
  = effects c ++ [AnimateFeature (3, 4)%Q; AnimateFeature (3, 4)%Q;
                  CallGetSDTV "POINT (3 4)"]
  ∧ listeners (singleclick_event demo_engine (addIdentifyPointMode c)
                 (3, 4)%Q)
    = [bound; villageClickEvent].
Proof.
  intros c.
  refine (identify_armed_click_feedback demo_engine c
            {| layers := demo_groups; singleclick := [bound] |}
            (3, 4)%Q _ _);
    reflexivity.
Defined.

(** ** More on the legends *)

Section LegendFurther.

Context (E : Engine) (P : Props).

Lemma legend_requests_omap ls :
  legend_requests P (List.filter getVisible ls)
  = omap (λ l, if getVisible l then legend_request P l else None) ls.
Proof.
  induction ls as [|l ls IH]; [done|]. cbn.
  destruct (getVisible l); [|exact IH]. cbn.
  destruct (legend_request P l); by rewrite IH.
Qed.

Lemma legend_requests_length ls : length (legend_requests P ls) ≤ length ls.
Proof.
  induction ls as [|l ls IH]; cbn; [done|].
  destruct (legend_request P l); cbn; lia.
Qed.

(** X14: a legend rebuild sends one image request for each visible layer
    that has a non-empty LAYERS parameter and first URL, in layer order, and
    none for any other layer; it shows at most one legend per visible layer,
    and it changes nothing but the legend list and the trace. *)
Theorem buildLegends_requests c map :
  mapRef c = Some map →
  effects (buildLegendsForVisibleWmsLayers E P c)
  = effects c
    ++ (CallBuildLegendBlob
        <$> omap (λ l, if getVisible l then legend_request P l else None)
              (layers map))
  ∧ length (legendUrls (buildLegendsForVisibleWmsLayers E P c))
    ≤ length (List.filter getVisible (layers map))
  ∧ mapRef (buildLegendsForVisibleWmsLayers E P c) = mapRef c
  ∧ summary (buildLegendsForVisibleWmsLayers E P c) = summary c
  ∧ clusterLayer (buildLegendsForVisibleWmsLayers E P c) = clusterLayer c
  ∧ navigationCropFilter (buildLegendsForVisibleWmsLayers E P c)
    = navigationCropFilter c
  ∧ clippedBoundary (buildLegendsForVisibleWmsLayers E P c)
    = clippedBoundary c
  ∧ pending (buildLegendsForVisibleWmsLayers E P c) = pending c
  ∧ next_ref (buildLegendsForVisibleWmsLayers E P c) = next_ref c.
Proof.
  intros Hmap. unfold buildLegendsForVisibleWmsLayers. rewrite Hmap. cbn.
  split; [by rewrite legend_requests_omap|]. split; [|done].
  etrans; [apply List.filter_length_le|]. rewrite length_fmap.
  apply legend_requests_length.
Qed.

Lemma legend_items_keys (k : nat) urls :
  item_key
  <$> imap (λ i u, {| item_key := "legend-" +:+ pretty (k + i);
                      item_src := u;
                      item_alt := "legend-" +:+ pretty (k + i) |}) urls
  = (λ i, "legend-" +:+ pretty i) <$> seq k (length urls).
Proof.
  revert k. induction urls as [|u urls IH]; intros k; [done|].
  cbn. rewrite Nat.add_0_r. f_equal. rewrite <- (IH (S k)).
  f_equal. apply imap_ext. intros i x _. cbn.
  by rewrite Nat.add_succ_r.
Qed.

Lemma keyed_items_src (key : nat → string) urls :
  item_src
  <$> imap (λ i u, {| item_key := key i; item_src := u;
                      item_alt := key i |}) urls
  = urls.
Proof.
  revert key. induction urls as [|u urls IH]; intros key; [done|].
  cbn. f_equal. apply (IH (λ i, key (S i))).
Qed.

Lemma legend_items_src urls : item_src <$> legend_items urls = urls.
Proof. apply (keyed_items_src (λ i, "legend-" +:+ pretty i)). Qed.

(** X15: what the panel shows after a rebuild, with object URLs that are
    never empty.  The panel is absent exactly when no layer of the map gave a
    legend; when it is there, its images are the legends of the layers in
    layer order, and its items carry the keys legend-0, legend-1, ..., which
    are pairwise distinct. *)
Theorem legend_panel_after_rebuild c map :
  mapRef c = Some map → (∀ blob, createObjectURL E blob ≠ "") →
  (legend_panel (buildLegendsForVisibleWmsLayers E P c) = None
   ↔ ∀ l, l ∈ layers map → legend_entry E P l = None)
  ∧ ∀ items,
      legend_panel (buildLegendsForVisibleWmsLayers E P c) = Some items →
      item_src <$> items = omap (legend_entry E P) (layers map)
      ∧ NoDup (item_key <$> items)
      ∧ ∀ i item, items !! i = Some item →
          item_key item = "legend-" +:+ pretty i
          ∧ item_alt item = item_key item.
Proof.
  intros Hmap Hurl.
  assert (legendUrls (buildLegendsForVisibleWmsLayers E P c)
          = omap (legend_entry E P) (layers map)) as Hurls.
  { unfold buildLegendsForVisibleWmsLayers. rewrite Hmap. cbn.
    by apply legend_urls_omap. }
  unfold legend_panel. rewrite Hurls. split.
  - destruct (omap (legend_entry E P) (layers map)) as [|u us] eqn:Hom; cbn.
    + split; [|done]. intros _ l Hin.
      destruct (legend_entry E P l) as [u|] eqn:Hl; [|done].
      assert (u ∈ omap (legend_entry E P) (layers map)) as Hu
        by (apply list_elem_of_omap; eauto).
      rewrite Hom in Hu. by apply elem_of_nil in Hu.
    + split; [done|]. intros Hnone.
      assert (u ∈ omap (legend_entry E P) (layers map)) as Hu
        by (rewrite Hom; left).
      apply list_elem_of_omap in Hu as (l & Hin & Hl).
      by rewrite (Hnone l Hin) in Hl.
  - intros items. destruct (0 <? length _)%nat; [|done].
    intros [= <-]. split; [apply legend_items_src|]. split.
    + unfold legend_items.
      rewrite (legend_items_keys 0).
      apply (NoDup_fmap_2 _), NoDup_seq. 
    + intros i item. unfold legend_items. rewrite list_lookup_imap.
      destruct (_ !! i); [|done]. cbn. by intros [= <-].
Qed.

End LegendFurther.

Lemma buildLegends_requests_witness :
  let E := demo_engine in
  let P := demo_props in
  let c := mount demo_groups in
  effects (buildLegendsForVisibleWmsLayers E P c)
  = effects c
    ++ (CallBuildLegendBlob
        <$> omap (λ l, if getVisible l then legend_request P l else None)
              demo_groups)
  ∧ length (legendUrls (buildLegendsForVisibleWmsLayers E P c))
    ≤ length (List.filter getVisible demo_groups)
  ∧ mapRef (buildLegendsForVisibleWmsLayers E P c) = mapRef c
  ∧ summary (buildLegendsForVisibleWmsLayers E P c) = summary c
  ∧ clusterLayer (buildLegendsForVisibleWmsLayers E P c) = clusterLayer c
  ∧ navigationCropFilter (buildLegendsForVisibleWmsLayers E P c)
    = navigationCropFilter c
  ∧ clippedBoundary (buildLegendsForVisibleWmsLayers E P c)
    = clippedBoundary c
  ∧ pending (buildLegendsForVisibleWmsLayers E P c) = pending c
  ∧ next_ref (buildLegendsForVisibleWmsLayers E P c) = next_ref c.
Proof.
  intros E P c.
  refine (buildLegends_requests E P c
            {| layers := demo_groups; singleclick := [bound] |} _).
  reflexivity.
Defined.

Lemma legend_panel_after_rebuild_witness :
  let E := demo_engine in
  let P := demo_props in
  let c := mount demo_groups in
  (legend_panel (buildLegendsForVisibleWmsLayers E P c) = None
   ↔ ∀ l, l ∈ demo_groups → legend_entry E P l = None)
  ∧ ∀ items,
      legend_panel (buildLegendsForVisibleWmsLayers E P c) = Some items →
      item_src <$> items = omap (legend_entry E P) demo_groups
      ∧ NoDup (item_key <$> items)
      ∧ ∀ i item, items !! i = Some item →
          item_key item = "legend-" +:+ pretty i
          ∧ item_alt item = item_key item.
Proof.
  intros E P c.
  refine (legend_panel_after_rebuild E P c
            {| layers := demo_groups; singleclick := [bound] |} _ _).
  - reflexivity.
  - apply demo_object_url.
Defined.

(** The panel of the five-layer map: two images, keyed by position. *)
Example legend_panel_demo :
  legend_panel
    (buildLegendsForVisibleWmsLayers demo_engine demo_props
       (mount demo_groups))
  = Some [ {| item_key := "legend-0"; item_src := "blob:68";
              item_alt := "legend-0" |};
           {| item_key := "legend-1"; item_src := "blob:74";
              item_alt := "legend-1" |} ].
Proof. vm_compute. reflexivity. Qed.

(** ** What every reachable state satisfies *)

Section Reachable.

Context (E : Engine) (P : Props).

Hypothesis removeFilter_only_removes :
  ∀ old fs f, f ∈ removeFilter E old fs → f ∈ fs.

Lemma layer_refs_frame c c' :
  layers <$> mapRef c' = layers <$> mapRef c →
  next_ref c ≤ next_ref c' →
  layer_refs_allocated c → layer_refs_allocated c'.
Proof.
  intros Hls Hnext Hrefs map' lyr Hmap' Hin. rewrite Hmap' in Hls.
  destruct (mapRef c) as [map|] eqn:Hmap; [|done].
  injection Hls as Hls. rewrite Hls in Hin.
  specialize (Hrefs map lyr Hmap Hin). lia.
Qed.

Lemma refresh_layer_refs outcome c :
  layer_refs_allocated c → layer_refs_allocated (refresh E P outcome c).
Proof.
  intros Hrefs. destruct outcome as [resp|e]; [|exact Hrefs].
  destruct (mapRef c) as [map|] eqn:Hmap.
  - assert (∀ lyr, lyr ∈ remove_first (named "cluster-layer") (layers map) →
                   layer_ref lyr < next_ref c) as Hold.
    { intros lyr Hin. apply (Hrefs map lyr Hmap).
      by apply (remove_first_subseteq (named "cluster-layer")). }
    destruct resp as [[|it items]|].
    + rewrite (refresh_resolved_empty E P _ c map) by auto.
      intros map' lyr [= <-]. apply Hold.
    + rewrite (refresh_resolved_nonempty E P _ c map) by done.
      intros map' lyr [= <-].
      cbn [layers set_layers next_ref overlay_state].
      destruct (isBirthCertificateLayerVisible c).
      * intros [Hin| ->%list_elem_of_singleton]%elem_of_app.
        -- specialize (Hold lyr Hin). lia.
        -- cbn. lia.
      * intros Hin. specialize (Hold lyr Hin). lia.
    + rewrite (refresh_resolved_empty E P _ c map) by auto.
      intros map' lyr [= <-]. apply Hold.
  - intros map'. unfold refresh, refreshClusterSummary, clusterLayerEffect.
    cbn. rewrite Hmap. cbn. by rewrite Hmap.
Qed.

Lemma clip_layer_refs body outcome c :
  layer_refs_allocated c →
  layer_refs_allocated (clip E P body outcome c).2.
Proof.
  intros Hrefs. destruct (mapRef c) as [map|] eqn:Hmap;
    [|unfold clip; by rewrite Hmap].
  assert (∀ lyr, lyr ∈ retired_layers c map → layer_ref lyr < next_ref c)
    as Hold.
  { intros lyr Hin. apply (Hrefs map lyr Hmap).
    by apply (retired_layers_subseteq c map). }
  unfold clip. rewrite Hmap.
  destruct outcome as [res|e];
    [destruct (readFeatures E (geojson_text res)) as [e|gs];
     [|destruct (last_coordinates gs) as [coords|]]|];
    intros map' lyr [= <-]; cbn [layers set_layers next_ref clip_state snd].
  - apply Hold.
  - intros (l0 & -> & [Hin| ->%list_elem_of_singleton]%elem_of_app)
           %list_elem_of_fmap; rewrite apply_mask_ref.
    + specialize (Hold l0 Hin). lia.
    + cbn. lia.
  - intros [Hin| ->%list_elem_of_singleton]%elem_of_app.
    + specialize (Hold lyr Hin). lia.
    + cbn. lia.
  - apply Hold.
Qed.

(** The steps that leave the layers and the allocation counter alone. *)
Lemma step_frame c a :
  match a with
  | Refresh _ | Clip _ _ => True
  | _ =>
      layers <$> mapRef (step E P c a) = layers <$> mapRef c
      ∧ next_ref (step E P c a) = next_ref c
  end.
Proof.
  destruct a as [outcome|body outcome| | |evt|i outcome]; cbn; try done.
  - unfold buildLegendsForVisibleWmsLayers.
    destruct (mapRef c) as [map|] eqn:Hmap; cbn; by rewrite ?Hmap.
  - unfold addIdentifyPointMode.
    destruct (mapRef c) as [map|] eqn:Hmap; cbn; rewrite ?Hmap; [|done].
    split; [|done]. cbn. f_equal. unfold on. by case_bool_decide.
  - unfold singleclick_event.
    destruct (mapRef c) as [map|] eqn:Hmap; [|by rewrite Hmap].
    destruct (run_listeners_frame E evt (singleclick map) c) as [-> ->].
    by rewrite Hmap.
  - unfold villageClickEvent_settled.
    destruct (pending c !! i); [|done]. cbn.
    destruct (mapRef c) as [map|] eqn:Hmap; cbn; by rewrite ?Hmap.
Qed.

Lemma step_layer_refs c a :
  layer_refs_allocated c → layer_refs_allocated (step E P c a).
Proof.
  intros Hrefs. pose proof (step_frame c a) as Hframe.
  destruct a as [outcome|body outcome| | |evt|i outcome].
  - by apply refresh_layer_refs.
  - cbn. unfold initialClipEffect.
    pose proof (clip_layer_refs body outcome c Hrefs) as Hclip.
    destruct (clip E P body outcome c) as [[|e] c']; [exact Hclip|].
    revert Hclip. by apply layer_refs_frame.
  - destruct Hframe as [Hls Hnext].
    apply (layer_refs_frame c); [done|lia|done].
  - destruct Hframe as [Hls Hnext].
    apply (layer_refs_frame c); [done|lia|done].
  - destruct Hframe as [Hls Hnext].
    apply (layer_refs_frame c); [done|lia|done].
  - destruct Hframe as [Hls Hnext].
    apply (layer_refs_frame c); [done|lia|done].
Qed.

(** X16: from a mount whose layers do not use the overlay's name, and with a
    [removeFilter] that only removes, every state reached by refreshes,
    clips, legend rebuilds, armings, clicks and settlements, in any order and
    with any outcomes, has a map that shows at most one layer named
    "cluster-layer", has each click listener registered at most once, and
    holds only layers and filters older than the next allocation. *)
Theorem reachable_well_formed groups c :
  cluster_layers groups = [] → reachable E P groups c →
  overlay_unique c ∧ NoDup (listeners c)
  ∧ refs_allocated c ∧ layer_refs_allocated c.
Proof using removeFilter_only_removes.
  intros Hgroups Hreach.
  destruct (reachable_invariant E P removeFilter_only_removes groups c
              Hgroups Hreach) as (Hu & Hf & Hnd).
  repeat (split; [done|]).
  clear Hu Hf Hnd. induction Hreach as [|c a _ IH].
  - apply mount_layer_refs_allocated.
  - by apply step_layer_refs.
Qed.

End Reachable.

Lemma demo_removeFilter_only_removes old fs f :
  f ∈ removeFilter demo_engine old fs → f ∈ fs.
Proof.
  destruct old as [g|]; cbn; [|by intros ?%elem_of_nil].
  rewrite !list_elem_of_In, List.filter_In. by intros [? _].
Qed.

Lemma reachable_well_formed_witness :
  let E := demo_engine in
  let P := demo_props in
  let c := foldl (step E P) (mount demo_groups)
             [ Refresh (Resolved (Some aggregates_two));
               Clip demo_body
                 (Resolved (Some [{| st_asgeojson := Some square_text |}]));
               Arm; Click (3, 4)%Q; RebuildLegends;
               Settle 0 (Resolved (Some [42]));
               Refresh (Resolved (Some aggregates_one)) ] in
  overlay_unique c ∧ NoDup (listeners c)
  ∧ refs_allocated c ∧ layer_refs_allocated c.
Proof.
  intros E P c.
  refine (reachable_well_formed E P demo_removeFilter_only_removes
            demo_groups c _ _).
  - reflexivity.
  - unfold c. cbn [foldl]. do 7 apply reachable_step. apply reachable_mount.
Defined.

(** ** The map's life cycle *)

Section LifeCycle.

Context (D : OlDefaults) (E : Engine) (P : Props).

Lemma refresh_listeners outcome c :
  listeners (refresh E P outcome c) = listeners c
  ∧ (mapRef (refresh E P outcome c) = None ↔ mapRef c = None).
Proof.
  unfold listeners, refresh, refreshClusterSummary, clusterLayerEffect.
  destruct outcome as [resp|e]; cbn; [|done].
  destruct (mapRef c) as [map|] eqn:Hmap; cbn; [|by rewrite Hmap].
  destruct (match resp with Some items => items | None => [] end); cbn; done.
Qed.

Lemma clip_listeners body outcome c :
  listeners (clip E P body outcome c).2 = listeners c
  ∧ (mapRef (clip E P body outcome c).2 = None ↔ mapRef c = None).
Proof.
  unfold listeners, clip.
  destruct (mapRef c) as [map|] eqn:Hmap; [|cbn; by rewrite Hmap].
  destruct outcome as [res|e];
    [destruct (readFeatures E (geojson_text res)) as [e|gs];
     [|destruct (last_coordinates gs) as [coords|]]|]; done.
Qed.

Lemma initialClipEffect_listeners initialClip outcome c :
  listeners (initialClipEffect E P initialClip outcome c) = listeners c
  ∧ (mapRef (initialClipEffect E P initialClip outcome c) = None
     ↔ mapRef c = None).
Proof.
  unfold initialClipEffect. destruct initialClip as [body|]; [|done].
  pose proof (clip_listeners body outcome c) as Hclip.
  by destruct (clip E P body outcome c) as [[|e] c'].
Qed.

Lemma buildLegends_listeners c :
  listeners (buildLegendsForVisibleWmsLayers E P c) = listeners c
  ∧ (mapRef (buildLegendsForVisibleWmsLayers E P c) = None
     ↔ mapRef c = None).
Proof.
  unfold listeners, buildLegendsForVisibleWmsLayers.
  destruct (mapRef c) as [map|] eqn:Hmap; cbn; by rewrite ?Hmap.
Qed.

Lemma groupsEffect_listeners outcome c :
  listeners (groupsEffect E P outcome c) = listeners c
  ∧ (mapRef (groupsEffect E P outcome c) = None ↔ mapRef c = None).
Proof.
  unfold groupsEffect. destruct (mapRef c) as [map|] eqn:Hmap;
    [|by rewrite Hmap].
  destruct (buildLegends_listeners c) as [Hl Hm]. rewrite Hmap in Hm.
  destruct (isBirthCertificateLayerVisible c); [|by rewrite Hl].
  destruct (refresh_listeners outcome (buildLegendsForVisibleWmsLayers E P c))
    as [-> ->]. by rewrite Hl.
Qed.

(** X17: a render that finds the center, the zoom, the freeze flag, the
    layers or [onMapReady] changed builds a new map, and nothing registers a
    click listener on it: the feedback effect does not run again and an armed
    identify listener stayed on the old map.  A click on the new map does
    nothing at all.  When neither the layers nor [initialClip] changed, the
    new map shows exactly [groups]: the overlay and the outline are no longer
    on the map, while the component still holds them, the recorded mask and
    the rest of its state. *)
Theorem rebuilt_map_has_no_listener ch inp initialClip cluster_outcome
    clip_outcome L :
  map_deps_changed ch = true → mapDiv inp = true →
  listeners
    (component (rerender D E P ch inp initialClip cluster_outcome
                  clip_outcome L)) = []
  ∧ (∀ evt,
       singleclick_event E
         (component (rerender D E P ch inp initialClip cluster_outcome
                       clip_outcome L)) evt
       = component (rerender D E P ch inp initialClip cluster_outcome
                      clip_outcome L))
  ∧ (groups_changed ch = false → initialClip_changed ch = false →
     component (rerender D E P ch inp initialClip cluster_outcome
                  clip_outcome L)
     = set_map {| layers := groups inp; singleclick := [] |} (component L)).
Proof.
  intros Hch Hdiv.
  assert (listeners
            (component (rerender D E P ch inp initialClip cluster_outcome
                          clip_outcome L)) = []) as Hnone.
  { unfold rerender. rewrite Hch.
    assert (listeners
              (component (mapEffect_setup D E inp (mapEffect_cleanup L)))
            = []) as Hbuilt.
    { unfold mapEffect_setup. by rewrite Hdiv. }
    destruct (groups_changed ch), (initialClip_changed ch);
      unfold with_component; cbn [component];
      rewrite ?(proj1 (initialClipEffect_listeners _ _ _)),
              ?(proj1 (groupsEffect_listeners _ _)); exact Hbuilt. }
  split; [exact Hnone|]. split.
  - intros evt. unfold singleclick_event. unfold listeners in Hnone.
    destruct (mapRef _) as [map|]; [|done]. by rewrite Hnone.
  - intros Hg Hic. unfold rerender. rewrite Hch, Hg, Hic.
    unfold mapEffect_setup. rewrite Hdiv. cbn.
    unfold mapEffect_cleanup. by destruct (session L).
Qed.

Lemma mapEffect_cleanup_ok L :
  lifecycle_ok L → lifecycle_ok (mapEffect_cleanup L)
  ∧ session (mapEffect_cleanup L) = None
  ∧ maps_built (mapEffect_cleanup L) = maps_built L
  ∧ ready_calls (mapEffect_cleanup L) = ready_calls L.
Proof.
  intros Hok. unfold mapEffect_cleanup.
  destruct (session L) as [map|] eqn:Hsession; [|done].
  destruct Hok as (Hlive & Hs & Hr & Hcalls).
  unfold lifecycle_ok, maps_built in *. rewrite Hsession in Hcalls. cbn.
  rewrite length_app. cbn.
  assert (∀ m, m ∈ retired L ++ [ {| target := false;
                   view_center := view_center map;
                   view_zoom := view_zoom map;
                   controls :=
                     foldl (λ cs c, removeControl c cs) (controls map)
                       custom_controls;
                   interactions := interactions map;
                   pointermove := false;
                   disposed := true |} ] →
             target m = false ∧ pointermove m = false ∧ disposed m = true)
    as Hr'.
  { intros m [Hm| ->%list_elem_of_singleton]%elem_of_app;
      [by apply Hr|done]. }
  rewrite Hsession.
  split; [|split; [done|split; [lia|done]]].
  split; [done|]. split; [done|]. split; [exact Hr'|lia].
Qed.

Lemma mapEffect_setup_ok inp L :
  lifecycle_ok L → session L = None →
  lifecycle_ok (mapEffect_setup D E inp L)
  ∧ (ready_calls L = maps_built L → onMapReady inp = true →
     ready_calls (mapEffect_setup D E inp L)
     = maps_built (mapEffect_setup D E inp L)).
Proof.
  intros (Hlive & Hs & Hr & Hcalls) Hnone. unfold mapEffect_setup.
  destruct (mapDiv inp); cbn.
  - unfold lifecycle_ok, maps_built in *. cbn. rewrite Hnone in *. split.
    + split; [done|]. split; [by intros map [= <-]|]. split; [done|].
      destruct (onMapReady inp); lia.
    + intros Heq ->. lia.
  - split; [done|]. intros Heq _. exact Heq.
Qed.

Lemma with_component_ok (f : Component → Component) L :
  (∀ c, mapRef (f c) = None ↔ mapRef c = None) →
  lifecycle_ok L → lifecycle_ok (with_component f L)
  ∧ maps_built (with_component f L) = maps_built L
  ∧ ready_calls (with_component f L) = ready_calls L.
Proof.
  intros Hf (Hlive & Hs & Hr & Hcalls). split; [|done].
  split; [|done]. cbn. by rewrite Hf.
Qed.

Lemma step_liveness c a : mapRef (step E P c a) = None ↔ mapRef c = None.
Proof.
  destruct a as [outcome|body outcome| | |evt|i outcome]; cbn.
  - apply refresh_listeners.
  - apply (initialClipEffect_listeners (Some body)).
  - apply buildLegends_listeners.
  - unfold addIdentifyPointMode.
    destruct (mapRef c) eqn:Hmap; cbn; rewrite ?Hmap; naive_solver.
  - unfold singleclick_event. destruct (mapRef c) as [map|] eqn:Hmap;
      [|by rewrite Hmap].
    destruct (run_listeners_frame E evt (singleclick map) c) as [-> _].
    by rewrite Hmap.
  - unfold villageClickEvent_settled. destruct (pending c !! i); [|done].
    cbn. destruct (mapRef c) eqn:Hmap; cbn; rewrite ?Hmap; naive_solver.
Qed.

Lemma rerender_ok ch inp initialClip cluster_outcome clip_outcome L :
  lifecycle_ok L →
  lifecycle_ok (rerender D E P ch inp initialClip cluster_outcome
                  clip_outcome L)
  ∧ (ready_calls L = maps_built L → onMapReady inp = true →
     ready_calls (rerender D E P ch inp initialClip cluster_outcome
                    clip_outcome L)
     = maps_built (rerender D E P ch inp initialClip cluster_outcome
                     clip_outcome L)).
Proof.
  intros Hok. unfold rerender.
  assert (lifecycle_ok
            (if map_deps_changed ch
             then mapEffect_setup D E inp (mapEffect_cleanup L) else L)
          ∧ (ready_calls L = maps_built L → onMapReady inp = true →
             ready_calls
               (if map_deps_changed ch
                then mapEffect_setup D E inp (mapEffect_cleanup L) else L)
             = maps_built
                 (if map_deps_changed ch
                  then mapEffect_setup D E inp (mapEffect_cleanup L)
                  else L))) as [Hok1 Heq1].
  { destruct (map_deps_changed ch); [|done].
    destruct (mapEffect_cleanup_ok L Hok) as (Hokc & Hnone & Hb & Hr).
    destruct (mapEffect_setup_ok inp _ Hokc Hnone) as [Hoks Heqs].
    split; [done|]. intros Heq. apply Heqs. by rewrite Hb, Hr. }
  set (L1 := if map_deps_changed ch
             then mapEffect_setup D E inp (mapEffect_cleanup L) else L) in *.
  assert (lifecycle_ok
            (if groups_changed ch
             then with_component (groupsEffect E P cluster_outcome) L1
             else L1)
          ∧ maps_built
              (if groups_changed ch
               then with_component (groupsEffect E P cluster_outcome) L1
               else L1) = maps_built L1
          ∧ ready_calls
              (if groups_changed ch
               then with_component (groupsEffect E P cluster_outcome) L1
               else L1) = ready_calls L1) as (Hok2 & Hb2 & Hr2).
  { destruct (groups_changed ch); [|done].
    apply with_component_ok; [|done]. intros c.
    apply groupsEffect_listeners. }
  set (L2 := if groups_changed ch
             then with_component (groupsEffect E P cluster_outcome) L1
             else L1) in *.
  destruct (initialClip_changed ch).
  - destruct (with_component_ok
                (initialClipEffect E P initialClip clip_outcome) L2)
      as (Hok3 & Hb3 & Hr3); [|done|].
    { intros c. apply initialClipEffect_listeners. }
    split; [done|]. intros Heq Hready. rewrite Hb3, Hr3, Hb2, Hr2.
    by apply Heq1.
  - split; [done|]. intros Heq Hready. rewrite Hb2, Hr2. by apply Heq1.
Qed.

(** X18: at every moment of the life cycle, [mapRef] holds a map exactly
    when a session is live; the live map has its target and its pointer
    listener and is not disposed; every earlier map was torn down (target
    unset, pointer listener removed, disposed) before its successor was
    built; and [onMapReady] was called at most once per map built, exactly
    once per map when the host passes the callback in every render. *)
Theorem lifecycle_accounting always_ready L :
  lifecycle_reachable D E P always_ready L →
  lifecycle_ok L
  ∧ (always_ready = true → ready_calls L = maps_built L).
Proof.
  induction 1 as [inp next Hready|L h _ [Hok Heq] Hready].
  - unfold first_paint.
    assert (lifecycle_ok (unmounted next)) as Hok0.
    { split; [done|]. split; [done|]. split; [|done].
      cbn. by intros ? ?%elem_of_nil. }
    destruct (mapEffect_setup_ok inp (unmounted next) Hok0 eq_refl)
      as [Hok1 Heq1].
    destruct (with_component_ok feedbackEffect
                (mapEffect_setup D E inp (unmounted next)))
      as (Hok2 & Hb2 & Hr2); [|done|].
    { intros c. unfold feedbackEffect.
      destruct (mapRef c) eqn:Hmap; cbn; rewrite ?Hmap; naive_solver. }
    split; [done|]. intros ->. rewrite Hb2, Hr2. apply Heq1; [done|].
    by apply Hready.
  - destruct h as [ch inp initialClip co clo|evt|a|]; cbn [happen].
    + destruct (rerender_ok ch inp initialClip co clo L Hok) as [Hok' Heq'].
      split; [done|]. intros Hb. apply Heq'; [by apply Heq|].
      by apply (Hready inp).
    + unfold pointermove_event. destruct (session L) as [map|] eqn:Hs;
        [|done].
      destruct (pointermove map); [|done].
      destruct Hok as (Hlive & Hsl & Hr & Hcalls).
      unfold lifecycle_ok, maps_built in *. cbn. rewrite Hs in *.
      done.
    + destruct (with_component_ok (λ c, step E P c a) L)
        as (Hok' & Hb' & Hr'); [intros c; apply step_liveness|done|].
      split; [done|]. intros Hb. rewrite Hb', Hr'. by apply Heq.
    + destruct (mapEffect_cleanup_ok L Hok) as (Hok' & _ & Hb' & Hr').
      split; [done|]. intros Hb. rewrite Hb', Hr'. by apply Heq.
Qed.

End LifeCycle.

(** The first paint leaves the component as [mount] describes it. *)
Lemma first_paint_mount D E inp :
  mapDiv inp = true →
  component (first_paint D E inp (fresh_above (groups inp)))
  = mount (groups inp).
Proof.
  intros Hdiv. unfold first_paint, mapEffect_setup. by rewrite Hdiv.
Qed.

Lemma rebuilt_map_has_no_listener_witness :
  let D := demo_defaults in
  let E := demo_engine in
  let P := demo_props in
  let L := with_component
             (λ c, addIdentifyPointMode
                     (refresh E P (Resolved (Some aggregates_two)) c))
             (first_paint D E demo_inputs (fresh_above demo_groups)) in
  let L' := rerender D E P center_only demo_inputs None (Resolved None)
              (Resolved None) L in
  listeners (component L) = [bound; villageClickEvent]
  ∧ listeners (component L') = []
  ∧ (∀ evt, singleclick_event E (component L') evt = component L')
  ∧ (groups_changed center_only = false →
     initialClip_changed center_only = false →
     component L'
     = set_map {| layers := demo_groups; singleclick := [] |} (component L)).
Proof.
  intros D E P L L'. split; [vm_compute; reflexivity|].
  refine (rebuilt_map_has_no_listener D E P center_only demo_inputs None
            (Resolved None) (Resolved None) L _ _);
    reflexivity.
Defined.

Lemma lifecycle_accounting_witness :
  let D := demo_defaults in
  let E := demo_engine in
  let P := demo_props in
  let L := foldl (happen D E P)
             (first_paint D E demo_inputs (fresh_above demo_groups))
             [ PointerMove (1, 2)%Q;
               Act (Refresh (Resolved (Some aggregates_two)));
               Render center_only demo_inputs None (Resolved None)
                 (Resolved None);
               Act Arm; Unmount; PointerMove (3, 4)%Q ] in
  (lifecycle_ok L ∧ (true = true → ready_calls L = maps_built L))
  ∧ ready_calls L = 2 ∧ pointerLonLat L = (1, 2)%Q.
Proof.
  intros D E P L. split; [|split; vm_compute; reflexivity].
  refine (lifecycle_accounting D E P true L _).
  unfold L. cbn [foldl].
  repeat (apply lifecycle_step; [|by intros ? [= <-]]).
  by apply lifecycle_start.
Defined.
